(** * cdk8s-core, [src/yaml.ts]: multi-document YAML reading and writing

    A shallow embedding of the [Yaml] utility class and of the JavaScript
    values, array operations and process primitives it is written with.
    The [yaml] package and Node's [child_process] are dependencies of the
    repository; they appear here as interfaces, with the behaviour the
    specification gives them written out where a statement needs it. *)

From Stdlib Require Import List String Ascii ZArith Bool Lia.
From Stdlib Require Import DecimalString.
From Stdlib Require DecimalFacts DecimalPos DecimalZ.
Import ListNotations.

Local Open Scope string_scope.

(** Rocq string literals have no escapes: the line feed is spelled out. *)
Definition LF : ascii := ascii_of_nat 10.
Definition nl : string := String LF "".

(** ** Failures

    A JavaScript call either returns or throws.  The failures are kept
    apart by constructor: the two the specification names, the
    [ReferenceError] with which the conversion of a document stops at an
    alias that has no anchor, and the system error of a write that the
    file system refuses. *)

Inductive fetch_failure : Type :=
| SpawnFailed
| NonZeroExit (status : Z)
| BufferExceeded.

Inductive error : Type :=
| ParseError (msg : string)
| FetchError (why : fetch_failure)
| ReferenceError (msg : string)
| SystemError (code : string).

Inductive result (A : Type) : Type :=
| Ok (a : A)
| Throw (e : error).

Arguments Ok {A} a.
Arguments Throw {A} e.

Definition bind {A B : Type} (m : result A) (k : A -> result B) : result B :=
  match m with
  | Ok a => k a
  | Throw e => Throw e
  end.

Notation "x <- m ;; k" := (bind m (fun x => k))
  (at level 61, m at next level, right associativity).

(** [mapM f l] runs [f] on the elements from left to right and stops at
    the first one that throws. *)
Fixpoint mapM {A B : Type} (f : A -> result B) (l : list A) : result (list B) :=
  match l with
  | [] => Ok []
  | a :: l' => b <- f a ;; bs <- mapM f l' ;; Ok (b :: bs)
  end.

(** ** JavaScript values and the operations [yaml.ts] applies to them *)

Module JS.

#[local] Unset Elimination Schemes.

(** The values [toJSON] hands to the loop of [load]: the documents of
    the specification's data model (mappings with string keys in
    insertion order, sequences, scalars, and the undefined marker) and
    the two collections that are objects without own properties, a
    [Set] and a [Map], which the package builds for the collections
    tagged [!!set] and [!!omap] under schema version 1.1.  Numbers carry
    an integer; nothing here does arithmetic on them. *)
Inductive value : Type :=
| VUndefined
| VNull
| VBool (b : bool)
| VNum (n : Z)
| VStr (s : string)
| VArr (items : list value)
| VObj (props : list (string * value))
| VSet (members : list value)
| VMap (entries : list (value * value)).

#[local] Set Elimination Schemes.

Inductive type_tag : Type :=
| TUndefined | TObject | TBoolean | TNumber | TString.

Definition type_tag_eqb (a b : type_tag) : bool :=
  match a, b with
  | TUndefined, TUndefined | TObject, TObject | TBoolean, TBoolean
  | TNumber, TNumber | TString, TString => true
  | _, _ => false
  end.

(** [typeof v]; [typeof null] is ["object"]. *)
Definition typeof (v : value) : type_tag :=
  match v with
  | VUndefined => TUndefined
  | VNull => TObject
  | VBool _ => TBoolean
  | VNum _ => TNumber
  | VStr _ => TString
  | VArr _ => TObject
  | VObj _ => TObject
  | VSet _ => TObject
  | VMap _ => TObject
  end.

(** [v === undefined] and [v === null]. *)
Definition is_undefined (v : value) : bool :=
  match v with VUndefined => true | _ => false end.

Definition is_null (v : value) : bool :=
  match v with VNull => true | _ => false end.

Definition Array_isArray (v : value) : bool :=
  match v with VArr _ => true | _ => false end.

(** [v.length], read only where [Array.isArray(v)] holds. *)
Definition array_length (v : value) : nat :=
  match v with VArr items => List.length items | _ => 0 end.

Definition index_name (i : nat) : string :=
  NilZero.string_of_uint (Nat.to_uint i).

(** [Object.keys(v)]: the own enumerable property names.  An array has
    its indices, a string the indices of its characters, a number or a
    boolean none.  The members of a [Set] and the entries of a [Map]
    are not properties: both have no keys, however many they hold.  The
    source guards [null] and [undefined] before it asks. *)
Definition Object_keys (v : value) : list string :=
  match v with
  | VObj props => map fst props
  | VArr items => map index_name (seq 0 (List.length items))
  | VStr s => map index_name (seq 0 (String.length s))
  | VSet _ => []
  | VMap _ => []
  | VUndefined | VNull | VBool _ | VNum _ => []
  end.

(** [xs.join(sep)] as ECMAScript defines it: walk the elements with an
    index [k], append the separator before every element but the
    first. *)
Definition join_step (sep : string) (st : nat * string) (x : string)
  : nat * string :=
  let '(k, R) := st in
  (S k, (if Nat.eqb k 0 then R else R ++ sep) ++ x).

Definition Array_join (sep : string) (xs : list string) : string :=
  snd (fold_left (join_step sep) xs (0, "")).

End JS.

Import JS.

(** ** The [yaml] package, as [yaml.ts] sees it

    [YAML.stringify(value, options)], [YAML.parseAllDocuments(text,
    options)] and [document.toJSON()], each with the options [yaml.ts]
    names in its call.  The two calls of [load] can throw; [yaml.ts]
    catches nothing. *)

Module YAML.

Module ToString.
Record options : Type := {
  keepUndefined : bool;
  lineWidth : Z;
  version : string
}.
End ToString.

Module Parse.
Record options : Type := {
  version : string
}.
End Parse.

Class Library : Type := {
  Document : Type;
  stringify : value -> ToString.options -> string;
  parseAllDocuments : string -> Parse.options -> result (list Document);
  toJSON : Document -> result value
}.

End YAML.

(** ** Node's [child_process], [path] and [fs] *)

Module Node.

(** What the child does when it is left to run to its end. *)
Inductive outcome : Type :=
| CannotSpawn
| Exited (status : Z) (stdout : string).

Record exec_options : Type := {
  encoding : string;
  maxBuffer : Z
}.

Class Host : Type := {
  execPath : string;
  dirname : string;
  run : string -> list string -> outcome
}.

(** The fields of [s] between the occurrences of [sep]. *)
Fixpoint split_on (sep : ascii) (s : string) : list string :=
  match s with
  | EmptyString => [EmptyString]
  | String c rest =>
      if Ascii.eqb c sep then EmptyString :: split_on sep rest
      else match split_on sep rest with
           | [] => [String c EmptyString]
           | x :: xs => String c x :: xs
           end
  end.

Fixpoint ends_with (c : ascii) (s : string) : bool :=
  match s with
  | EmptyString => false
  | String d EmptyString => Ascii.eqb d c
  | String _ rest => ends_with c rest
  end.

(** The segments that are left of a path: an empty segment and [.]
    vanish, [..] takes the segment before it away; in front of a
    relative path ([above]) a [..] with nothing to take stays.  [stack]
    holds the segments kept so far, the last one first. *)
Fixpoint normalize_segments (above : bool) (stack segs : list string)
  : list string :=
  match segs with
  | [] => rev stack
  | seg :: rest =>
      if String.eqb seg "" || String.eqb seg "." then
        normalize_segments above stack rest
      else if String.eqb seg ".." then
        match stack with
        | top :: stack' =>
            if String.eqb top ".."
            then normalize_segments above (seg :: stack) rest
            else normalize_segments above stack' rest
        | [] =>
            if above then normalize_segments above [seg] rest
            else normalize_segments above [] rest
        end
      else normalize_segments above (seg :: stack) rest
  end.

(** Modelled from the spec: [path.normalize] of the Node runtime, for
    POSIX paths. *)
Definition normalize (path : string) : string :=
  match path with
  | EmptyString => "."
  | String c _ =>
      let isAbsolute := Ascii.eqb c "/" in
      let trailingSeparator := ends_with "/" path in
      let kept :=
        String.concat "/"
          (normalize_segments (negb isAbsolute) [] (split_on "/" path)) in
      if String.eqb kept "" then
        if isAbsolute then "/" else if trailingSeparator then "./" else "."
      else
        let kept := if trailingSeparator then kept ++ "/" else kept in
        if isAbsolute then "/" ++ kept else kept
  end.

(** Modelled from the spec: [path.join] of the Node runtime at two
    arguments, for POSIX paths: the arguments that are not empty, put
    together with a slash, and the whole normalized. *)
Definition path_join (a b : string) : string :=
  let joined :=
    if String.eqb a "" then b
    else if String.eqb b "" then a
    else a ++ "/" ++ b in
  if String.eqb joined "" then "." else normalize joined.

(** Modelled from the spec: [child_process.execFileSync] belongs to the
    Node runtime, not to the repository.  It returns the child's whole
    standard output; a child that cannot be spawned, that writes more
    than [maxBuffer] bytes, or that exits with a nonzero status makes
    the call throw. *)
Definition execFileSync `{Host} (file : string) (args : list string)
    (opts : exec_options) : result string :=
  match run file args with
  | CannotSpawn => Throw (FetchError SpawnFailed)
  | Exited status stdout =>
      if (maxBuffer opts <? Z.of_nat (String.length stdout))%Z
      then Throw (FetchError BufferExceeded)
      else if (status =? 0)%Z then Ok stdout
      else Throw (FetchError (NonZeroExit status))
  end.

(** The files and their texts.  A file is known by a name of its own;
    several paths can lead to one file. *)
Definition filesystem : Type := string -> option string.

(** What the platform decides.  [file_of p] is the file the path [p]
    leads to.  Whether a write goes through is the platform's matter as
    well: the directory may be missing, the path may lead to a
    directory, the process may lack the permission; [write_error fs p]
    is the code of the system error a write through [p] meets in [fs],
    if it meets one. *)
Class Disk : Type := {
  file_of : string -> string;
  write_error : filesystem -> string -> option string
}.

(** The text read through a path. *)
Definition file_at `{Disk} (fs : filesystem) (filePath : string)
  : option string :=
  fs (file_of filePath).

(** Modelled from the spec: [fs.writeFileSync] of the Node runtime.  A
    write that the platform refuses throws and leaves no new state; one
    that goes through replaces the text of the file the path leads to,
    for every path that leads to it, and leaves the other files as they
    are. *)
Definition writeFileSync `{Disk} (fs : filesystem) (filePath data : string)
  : result filesystem :=
  match write_error fs filePath with
  | Some code => Throw (SystemError code)
  | None =>
      Ok (fun f => if String.eqb f (file_of filePath) then Some data else fs f)
  end.

End Node.

(** ** [class Yaml] *)

Module Yaml.
Section Yaml.

Context {lib : YAML.Library} {host : Node.Host} {disk : Node.Disk}.

Definition MAX_DOWNLOAD_BUFFER : Z := 10 * 1024 * 1024.

Definition yamlSchemaVersion : string := "1.1".

(** The options literal of [stringify], line 46. *)
Definition stringify_options : YAML.ToString.options :=
  {| YAML.ToString.keepUndefined := true;
     YAML.ToString.lineWidth := 0;
     YAML.ToString.version := yamlSchemaVersion |}.

(** The options literal of [load], lines 75-77. *)
Definition load_options : YAML.Parse.options :=
  {| YAML.Parse.version := yamlSchemaVersion |}.

(** The arrow function mapped over [docs] in [stringify]. *)
Definition document_text (r : value) : string :=
  if is_undefined r then nl else YAML.stringify r stringify_options.

Definition stringify (docs : list value) : string :=
  Array_join ("---" ++ nl) (map document_text docs).

Definition formatObjects (docs : list value) : string :=
  stringify docs.

Definition save (fs : Node.filesystem) (filePath : string)
    (docs : list value) : result Node.filesystem :=
  let data := stringify docs in
  Node.writeFileSync fs filePath data.

(** One turn of the [for] loop of [load]: each [continue] leaves
    [result] as it is, [result.push(obj)] appends. *)
Definition load_step (result : list value) (obj : value) : list value :=
  if is_undefined obj then result
  else if is_null obj then result
  else if Array_isArray obj && Nat.eqb (array_length obj) 0 then result
  else if type_tag_eqb (typeof obj) TObject
          && Nat.eqb (List.length (Object_keys obj)) 0 then result
  else result ++ [obj].

Definition load_loop (raws : list value) : list value :=
  fold_left load_step raws [].

(** [load] after the fetch: parse under the fixed version, convert each
    document with [toJSON] (the [map] of line 80 stops at the first
    conversion that throws), then run the loop over the converted
    values. *)
Definition load_body (body : string) : result (list value) :=
  objects <- YAML.parseAllDocuments body load_options ;;
  raws <- mapM YAML.toJSON objects ;;
  Ok (load_loop raws).

Definition loadurl (url : string) : result string :=
  let script := Node.path_join Node.dirname "_loadurl.mjs" in
  Node.execFileSync Node.execPath [script; url]
    {| Node.encoding := "utf-8";
       Node.maxBuffer := MAX_DOWNLOAD_BUFFER |}.

Definition load (urlOrFile : string) : result (list value) :=
  body <- loadurl urlOrFile ;;
  load_body body.

End Yaml.
End Yaml.

(** ** The [yaml] package modelled from the specification

    The package's sources are not part of the repository.  This module
    writes out what the specification says of it: the document tree that
    is serialized, the resolution of plain scalars under a schema
    version, and the framing of a stream into documents.  The concrete
    presentation syntax (styles, quoting, indentation) stays an
    interface. *)

Module YAMLModel.

#[local] Unset Elimination Schemes.

(** A document tree: what is written to, or composed from, the text.
    Besides the mappings, sequences and scalars of the data model a tree
    can hold a collection tagged [!!set] or [!!omap], and an alias whose
    anchor the document does not define (an alias that has its anchor
    stands for the tree of the anchor and needs no node of its own). *)
Inductive node : Type :=
| NNull
| NBool (b : bool)
| NNum (n : Z)
| NStr (s : string)
| NSeq (items : list node)
| NMap (pairs : list (string * node))
| NSet (members : list node)
| NOmap (entries : list (node * node))
| NAlias (name : string).

(** A parsed document before its plain scalars are resolved. *)
Inductive raw : Type :=
| RPlain (text : string)
| RQuoted (text : string)
| RSeq (items : list raw)
| RMap (pairs : list (string * raw))
| RSet (members : list raw)
| ROmap (entries : list (raw * raw))
| RAlias (name : string).

#[local] Set Elimination Schemes.

(** The presentation syntax: how a tree is written, what a text is read
    as, [inl] with the message of the first error or [inr] with the
    document, and what the package still composes from a text in which
    it found an error. *)
Class Syntax : Type := {
  render : YAML.ToString.options -> node -> string;
  parse : string -> string + raw;
  recover : string -> option raw
}.

(** Modelled from the spec: how the [yaml] package, which is not under
    [src/], builds the document tree of a value.  An undefined value is
    written as null; a property whose value is undefined is left out of
    its mapping unless [keepUndefined] is set.  A [Set] and a [Map] are
    written as the tagged collections of schema version 1.1, the version
    [yaml.ts] fixes. *)
Fixpoint createNode (keep : bool) (v : value) : node :=
  match v with
  | VUndefined => NNull
  | VNull => NNull
  | VBool b => NBool b
  | VNum n => NNum n
  | VStr s => NStr s
  | VArr items => NSeq (map (createNode keep) items)
  | VObj props =>
      NMap ((fix pairs (ps : list (string * value)) : list (string * node) :=
               match ps with
               | [] => []
               | (k, x) :: ps' =>
                   if is_undefined x && negb keep then pairs ps'
                   else (k, createNode keep x) :: pairs ps'
               end) props)
  | VSet members => NSet (map (createNode keep) members)
  | VMap entries =>
      NOmap (map (fun kv => (createNode keep (fst kv), createNode keep (snd kv)))
                 entries)
  end.

Definition octal_digit (c : ascii) : option Z :=
  let n := nat_of_ascii c in
  if Nat.leb 48 n && Nat.leb n 55 then Some (Z.of_nat (n - 48)) else None.

Fixpoint read_octal (acc : Z) (s : string) : option Z :=
  match s with
  | EmptyString => Some acc
  | String c s' =>
      match octal_digit c with
      | Some d => read_octal (8 * acc + d) s'
      | None => None
      end
  end.

Definition read_decimal (s : string) : option Z :=
  option_map Z.of_int (NilZero.int_of_string s).

(** Modelled from the spec: the integer the [yaml] package reads a plain
    scalar as.  Under version 1.1 a leading zero followed by octal digits
    is an octal number; under any other version the leading zero changes
    nothing and the digits are read as decimal. *)
Definition resolve_int (ver : string) (s : string) : option Z :=
  match s with
  | String z (String c rest) =>
      if Ascii.eqb z "0" && String.eqb ver "1.1" then
        match read_octal 0 (String c rest) with
        | Some n => Some n
        | None => read_decimal s
        end
      else read_decimal s
  | _ => read_decimal s
  end.

(** Modelled from the spec: the scalar a plain (unquoted) text stands
    for: null, a boolean, an integer, or else the string itself. *)
Definition resolve_plain (ver : string) (s : string) : node :=
  if String.eqb s "" || String.eqb s "~" || String.eqb s "null" then NNull
  else if String.eqb s "true" then NBool true
  else if String.eqb s "false" then NBool false
  else match resolve_int ver s with
       | Some z => NNum z
       | None => NStr s
       end.

(** Resolution of a whole document: a quoted scalar is a string. *)
Fixpoint resolve (ver : string) (r : raw) : node :=
  match r with
  | RPlain t => resolve_plain ver t
  | RQuoted t => NStr t
  | RSeq items => NSeq (map (resolve ver) items)
  | RMap pairs => NMap (map (fun kv => (fst kv, resolve ver (snd kv))) pairs)
  | RSet members => NSet (map (resolve ver) members)
  | ROmap entries =>
      NOmap (map (fun kv => (resolve ver (fst kv), resolve ver (snd kv)))
                 entries)
  | RAlias name => NAlias name
  end.

(** Modelled from the spec: the native value of a document tree.  The
    tagged collections become a [Set] and a [Map]; at an alias without
    an anchor the conversion throws. *)
Fixpoint node_to_value (n : node) : result value :=
  match n with
  | NNull => Ok VNull
  | NBool b => Ok (VBool b)
  | NNum z => Ok (VNum z)
  | NStr s => Ok (VStr s)
  | NSeq items =>
      items' <- mapM node_to_value items ;;
      Ok (VArr items')
  | NMap pairs =>
      props <- mapM (fun kv => v <- node_to_value (snd kv) ;; Ok (fst kv, v))
                    pairs ;;
      Ok (VObj props)
  | NSet members =>
      members' <- mapM node_to_value members ;;
      Ok (VSet members')
  | NOmap entries =>
      entries' <- mapM (fun kv => k <- node_to_value (fst kv) ;;
                                  v <- node_to_value (snd kv) ;;
                                  Ok (k, v))
                       entries ;;
      Ok (VMap entries')
  | NAlias name => Throw (ReferenceError ("Unresolved alias: " ++ name))
  end.

(** A parsed document: the tree that was composed, none for a blank
    document, and the errors that were found on the way. *)
Record document : Type := {
  contents : option node;
  errors : list string
}.

(** Modelled from the spec: [document.toJSON()] of the [yaml] package.
    A document with no contents converts to the undefined marker, any
    other to the value of its tree.  The errors of the document play no
    part. *)
Definition toJSON (d : document) : result value :=
  match contents d with
  | None => Ok VUndefined
  | Some n => node_to_value n
  end.

(** The lines of a text, without their line feeds; a last line that is
    not terminated counts. *)
Fixpoint lines (s : string) : list string :=
  match s with
  | EmptyString => []
  | String c rest =>
      if Ascii.eqb c LF then EmptyString :: lines rest
      else match lines rest with
           | [] => [String c EmptyString]
           | l :: ls => String c l :: ls
           end
  end.

Definition unlines (ls : list string) : string :=
  fold_right (fun l acc => l ++ nl ++ acc) "" ls.

(** The groups of lines between the lines that read [---]. *)
Fixpoint blocks (ls : list string) : list (list string) :=
  match ls with
  | [] => [[]]
  | l :: rest =>
      if String.eqb l "---" then [] :: blocks rest
      else match blocks rest with
           | [] => [[l]]
           | b :: bs => (l :: b) :: bs
           end
  end.

(** Modelled from the spec: the wire format the [yaml] package reads.  A
    stream is a run of documents separated by a line containing [---];
    the empty text holds no document. *)
Definition split_stream (text : string) : list string :=
  if String.eqb text "" then [] else map unlines (blocks (lines text)).

Definition is_space (c : ascii) : bool :=
  Ascii.eqb c " " || Ascii.eqb c LF
  || Ascii.eqb c (ascii_of_nat 9) || Ascii.eqb c (ascii_of_nat 13).

Fixpoint is_blank (t : string) : bool :=
  match t with
  | EmptyString => true
  | String c rest => is_space c && is_blank rest
  end.

(** Modelled from the spec: the parse of one document by the [yaml]
    package.  A document consisting of a blank line is the document
    without contents; any other text goes through the syntax and the
    schema of the requested version.  For text that is not valid YAML
    the package is followed, not the specification's sentence on it: the
    parse does not throw, the error is recorded in the document, next to
    whatever could still be composed. *)
Definition parseDocument `{Syntax} (ver : string) (t : string) : document :=
  if is_blank t then {| contents := None; errors := [] |}
  else match parse t with
       | inr r => {| contents := Some (resolve ver r); errors := [] |}
       | inl msg =>
           {| contents := option_map (resolve ver) (recover t);
              errors := [msg] |}
       end.

(** Modelled from the spec: [parseAllDocuments] returns a document for
    every document of the stream, the ones with errors included. *)
Definition parseAllDocuments `{Syntax} (text : string)
    (opts : YAML.Parse.options) : result (list document) :=
  Ok (map (parseDocument (YAML.Parse.version opts)) (split_stream text)).

Definition stringify `{Syntax} (v : value) (opts : YAML.ToString.options)
  : string :=
  render opts (createNode (YAML.ToString.keepUndefined opts) v).

Definition library (syn : Syntax) : YAML.Library :=
  {| YAML.Document := document;
     YAML.stringify := stringify;
     YAML.parseAllDocuments := parseAllDocuments;
     YAML.toJSON := toJSON |}.

End YAMLModel.

(** ** A reference syntax

    A small executable presentation syntax for the interface above: a
    mapping or a sequence at the top of a document is written one entry
    per line, anything nested in flow style.  It reads back the
    mappings, sequences and scalars it writes and reports an error in
    what it does not know: it writes the tagged collections but does not
    read tags.  From a text with an error it still composes a document
    in two cases: a flow collection that is not closed at the end of the
    text is read as if it were, and a text that is one alias is that
    alias. *)

Module Reference.

Import YAMLModel.

Definition DQ : ascii := ascii_of_nat 34.
Definition BS : ascii := ascii_of_nat 92.

Definition in_range (lo hi : nat) (c : ascii) : bool :=
  Nat.leb lo (nat_of_ascii c) && Nat.leb (nat_of_ascii c) hi.

Definition plain_char (c : ascii) : bool :=
  in_range 48 57 c || in_range 65 90 c || in_range 97 122 c
  || Ascii.eqb c "_" || Ascii.eqb c "-" || Ascii.eqb c ".".

Fixpoint all_chars (p : ascii -> bool) (s : string) : bool :=
  match s with
  | EmptyString => true
  | String c rest => p c && all_chars p rest
  end.

Definition plain_word (s : string) : bool :=
  match s with
  | EmptyString => false
  | String c _ => negb (Ascii.eqb c "-") && all_chars plain_char s
  end.

Fixpoint escape (s : string) : string :=
  match s with
  | EmptyString => EmptyString
  | String c rest =>
      if Ascii.eqb c DQ then String BS (String DQ (escape rest))
      else if Ascii.eqb c BS then String BS (String BS (escape rest))
      else if Ascii.eqb c LF then String BS (String "n" (escape rest))
      else String c (escape rest)
  end.

Definition quoted (s : string) : string :=
  String DQ (escape s ++ String DQ EmptyString).

Definition key_text (k : string) : string :=
  if plain_word k then k else quoted k.

Definition scalar_text (ver : string) (s : string) : string :=
  match resolve_plain ver s with
  | NStr _ => if plain_word s then s else quoted s
  | _ => quoted s
  end.

Fixpoint commas (xs : list string) : string :=
  match xs with
  | [] => ""
  | [x] => x
  | x :: rest => x ++ ", " ++ commas rest
  end.

Fixpoint flow (ver : string) (n : node) : string :=
  match n with
  | NNull => "null"
  | NBool true => "true"
  | NBool false => "false"
  | NNum z => NilZero.string_of_int (Z.to_int z)
  | NStr s => scalar_text ver s
  | NSeq items => "[" ++ commas (map (flow ver) items) ++ "]"
  | NMap pairs =>
      "{" ++ commas (map (fun kv => key_text (fst kv) ++ ": "
                                     ++ flow ver (snd kv)) pairs) ++ "}"
  | NSet members =>
      String "!" ("!set {" ++ commas (map (flow ver) members) ++ "}")
  | NOmap entries =>
      String "!" ("!omap [" ++ commas (map (fun kv => flow ver (fst kv) ++ ": "
                                                      ++ flow ver (snd kv))
                                           entries) ++ "]")
  | NAlias name => String "*" name
  end.

Definition render_document (opts : YAML.ToString.options) (n : node)
  : string :=
  let ver := YAML.ToString.version opts in
  match n with
  | NMap (p :: ps) =>
      unlines (map (fun kv => key_text (fst kv) ++ ": " ++ flow ver (snd kv))
                   (p :: ps))
  | NSeq (x :: xs) =>
      unlines (map (fun y => "- " ++ flow ver y) (x :: xs))
  | _ => flow ver n ++ nl
  end.

Fixpoint skip_spaces (s : string) : string :=
  match s with
  | EmptyString => EmptyString
  | String c rest => if Ascii.eqb c " " then skip_spaces rest else s
  end.

(** The rest of [s] behind the character [c], if [s] starts with it. *)
Definition starts_with (c : ascii) (s : string) : option string :=
  match s with
  | EmptyString => None
  | String d rest => if Ascii.eqb d c then Some rest else None
  end.

Fixpoint take_plain (s : string) : string * string :=
  match s with
  | EmptyString => (EmptyString, EmptyString)
  | String c rest =>
      if plain_char c then
        let '(w, r) := take_plain rest in (String c w, r)
      else (EmptyString, s)
  end.

Definition unescape (e : ascii) : option ascii :=
  if Ascii.eqb e "n" then Some LF
  else if Ascii.eqb e DQ || Ascii.eqb e BS then Some e
  else None.

(** The text of a quoted scalar, read from behind its opening quote. *)
Fixpoint take_quoted (s : string) : option (string * string) :=
  match s with
  | EmptyString => None
  | String c rest =>
      if Ascii.eqb c DQ then Some (EmptyString, rest)
      else if Ascii.eqb c BS then
        match rest with
        | EmptyString => None
        | String e rest' =>
            match unescape e, take_quoted rest' with
            | Some c', Some (w, r) => Some (String c' w, r)
            | _, _ => None
            end
        end
      else
        match take_quoted rest with
        | Some (w, r) => Some (String c w, r)
        | None => None
        end
  end.

Definition parse_scalar (s : string) : option (raw * string) :=
  match s with
  | EmptyString => None
  | String c rest =>
      if Ascii.eqb c DQ then
        match take_quoted rest with
        | Some (w, r) => Some (RQuoted w, r)
        | None => None
        end
      else
        match take_plain s with
        | (EmptyString, _) => None
        | (w, r) => Some (RPlain w, r)
        end
  end.

Definition scalar_key (r : raw) : option string :=
  match r with
  | RPlain k => Some k
  | RQuoted k => Some k
  | _ => None
  end.

Fixpoint parse_flow (fuel : nat) (s : string) : option (raw * string) :=
  match fuel with
  | O => None
  | S fuel' =>
      match starts_with "[" s, starts_with "{" s with
      | Some rest, _ =>
          match starts_with "]" (skip_spaces rest) with
          | Some r => Some (RSeq [], r)
          | None =>
              match parse_items fuel' (skip_spaces rest) with
              | Some (vs, r') => Some (RSeq vs, r')
              | None => None
              end
          end
      | None, Some rest =>
          match starts_with "}" (skip_spaces rest) with
          | Some r => Some (RMap [], r)
          | None =>
              match parse_entries fuel' (skip_spaces rest) with
              | Some (kvs, r') => Some (RMap kvs, r')
              | None => None
              end
          end
      | None, None => parse_scalar s
      end
  end

with parse_items (fuel : nat) (s : string) : option (list raw * string) :=
  match fuel with
  | O => None
  | S fuel' =>
      match parse_flow fuel' s with
      | Some (v, r) =>
          match starts_with "]" (skip_spaces r),
                starts_with "," (skip_spaces r) with
          | Some r', _ => Some ([v], r')
          | None, Some r' =>
              match parse_items fuel' (skip_spaces r') with
              | Some (vs, r'') => Some (v :: vs, r'')
              | None => None
              end
          | None, None => None
          end
      | None => None
      end
  end

with parse_entries (fuel : nat) (s : string)
  : option (list (string * raw) * string) :=
  match fuel with
  | O => None
  | S fuel' =>
      match parse_scalar s with
      | Some (k, r) =>
          match scalar_key k, starts_with ":" r with
          | Some key, Some r0 =>
              match parse_flow fuel' (skip_spaces r0) with
              | Some (v, r1) =>
                  match starts_with "}" (skip_spaces r1),
                        starts_with "," (skip_spaces r1) with
                  | Some r', _ => Some ([(key, v)], r')
                  | None, Some r' =>
                      match parse_entries fuel' (skip_spaces r') with
                      | Some (kvs, r'') => Some ((key, v) :: kvs, r'')
                      | None => None
                      end
                  | None, None => None
                  end
              | None => None
              end
          | _, _ => None
          end
      | None => None
      end
  end.

Definition fuel_for (s : string) : nat := 2 * String.length s + 2.

(** A flow value that fills its line; nothing after a key is null. *)
Definition parse_value_line (s : string) : option raw :=
  match skip_spaces s with
  | EmptyString => Some (RPlain "")
  | s' =>
      match parse_flow (fuel_for s') s' with
      | Some (v, r) =>
          match skip_spaces r with
          | EmptyString => Some v
          | _ => None
          end
      | None => None
      end
  end.

Definition parse_item_line (l : string) : option raw :=
  match starts_with "-" l with
  | Some r =>
      match starts_with " " r with
      | Some rest => parse_value_line rest
      | None => None
      end
  | None => None
  end.

Definition parse_entry_line (l : string) : option (string * raw) :=
  match parse_scalar l with
  | Some (k, r) =>
      match scalar_key k, starts_with ":" r with
      | Some key, Some rest =>
          match parse_value_line rest with
          | Some v => Some (key, v)
          | None => None
          end
      | _, _ => None
      end
  | None => None
  end.

Fixpoint all_some {A B : Type} (f : A -> option B) (l : list A)
  : option (list B) :=
  match l with
  | [] => Some []
  | a :: l' =>
      match f a, all_some f l' with
      | Some b, Some bs => Some (b :: bs)
      | _, _ => None
      end
  end.

Definition parse_lines (ls : list string) : string + raw :=
  match ls with
  | [] => inl "no content"
  | l :: rest =>
      match parse_item_line l with
      | Some _ =>
          match all_some parse_item_line (l :: rest) with
          | Some vs => inr (RSeq vs)
          | None => inl "bad sequence entry"
          end
      | None =>
          match parse_entry_line l with
          | Some _ =>
              match all_some parse_entry_line (l :: rest) with
              | Some kvs => inr (RMap kvs)
              | None => inl "bad mapping entry"
              end
          | None =>
              match parse_value_line l, rest with
              | Some v, [] => inr v
              | _, _ => inl "unexpected content"
              end
          end
      end
  end.

Definition parse_document (t : string) : string + raw :=
  parse_lines (filter (fun l => negb (is_blank l)) (lines t)).

(** The lines [ls] with [closer] behind the last of them. *)
Fixpoint close_last (closer : string) (ls : list string) : list string :=
  match ls with
  | [] => []
  | [l] => [l ++ closer]
  | l :: rest => l :: close_last closer rest
  end.

Definition alias_line (ls : list string) : option raw :=
  match ls with
  | [l] =>
      match starts_with "*" l with
      | Some name => if plain_word name then Some (RAlias name) else None
      | None => None
      end
  | _ => None
  end.

Definition recover_document (t : string) : option raw :=
  let ls := filter (fun l => negb (is_blank l)) (lines t) in
  match alias_line ls with
  | Some r => Some r
  | None =>
      match parse_lines (close_last "]" ls), parse_lines (close_last "}" ls) with
      | inr r, _ => Some r
      | inl _, inr r => Some r
      | inl _, inl _ => None
      end
  end.

Definition syntax : Syntax :=
  {| render := render_document;
     parse := parse_document;
     recover := recover_document |}.

(** A host whose fetch helper prints [out] and exits with [status]. *)
Definition host (status : Z) (out : string) : Node.Host :=
  {| Node.execPath := "/usr/bin/node";
     Node.dirname := "/lib";
     Node.run := fun _ _ => Node.Exited status out |}.

End Reference.

Import YAMLModel.

(** ** The specification's own notions

    Definitions that follow the wording of the specification; the
    theorems below compare them with the code. *)

(** "Empty": the undefined marker, an explicit null, an empty sequence,
    or a mapping with zero keys. *)
Definition classified_empty (v : value) : bool :=
  match v with
  | VUndefined => true
  | VNull => true
  | VArr [] => true
  | VObj [] => true
  | _ => false
  end.


(** A value built of mappings, sequences and scalars only: neither the
    undefined marker nor a [Set] or a [Map] occurs in it, at any
    depth. *)
Fixpoint plain_data (v : value) : bool :=
  match v with
  | VUndefined => false
  | VNull | VBool _ | VNum _ | VStr _ => true
  | VArr items => forallb plain_data items
  | VObj props => forallb (fun kv => plain_data (snd kv)) props
  | VSet _ => false
  | VMap _ => false
  end.

(** A text that can stand between two separators: it is not empty, its
    last line is terminated, and none of its lines reads [---]. *)
Definition well_framed (t : string) : bool :=
  negb (String.eqb t "")
  && String.eqb (unlines (lines t)) t
  && forallb (fun l => negb (String.eqb l "---")) (lines t).

(** The presentation syntax is faithful on a tree under given options:
    what it writes is well framed and reads back, without an error, as
    the same tree. *)
Definition faithful (syn : Syntax) (opts : YAML.ToString.options) (n : node)
  : Prop :=
  well_framed (render opts n) = true
  /\ parseDocument (YAML.ToString.version opts) (render opts n)
     = {| contents := Some n; errors := [] |}.

(** The syntax finds an error in the text of a document. *)
Definition rejected (syn : Syntax) (t : string) : bool :=
  negb (is_blank t)
  && match parse t with inl _ => true | inr _ => false end.

(** A malformed stream: one of its documents is not valid YAML. *)
Definition malformed (syn : Syntax) (body : string) : bool :=
  existsb (rejected syn) (split_stream body).

(** ** Auxiliary definitions of the proofs *)

(** What the loop of [join] appends once the first element is behind
    it. *)
Definition tail_text (sep : string) (xs : list string) : string :=
  fold_right (fun x acc => sep ++ x ++ acc) "" xs.

(** The arguments [loadurl] starts the helper with. *)
Definition fetch_command {host : Node.Host} (url : string) : list string :=
  [Node.path_join Node.dirname "_loadurl.mjs"; url].

Fixpoint has_lf (s : string) : bool :=
  match s with
  | EmptyString => false
  | String c rest => Ascii.eqb c LF || has_lf rest
  end.

Definition is_line (l : string) : Prop := has_lf l = false.

Definition no_separator (b : list string) : bool :=
  forallb (fun l => negb (String.eqb l "---")) b.

(** The lines of a stream whose documents have the lines [bs]. *)
Fixpoint stream_lines (bs : list (list string)) : list string :=
  match bs with
  | [] => []
  | [b] => b
  | b :: bs' => b ++ "---" :: stream_lines bs'
  end.

(** The pairs of a mapping's tree, as the local function of
    [createNode] builds them. *)
Fixpoint createPairs (keep : bool) (ps : list (string * value))
  : list (string * node) :=
  match ps with
  | [] => []
  | (k, x) :: ps' =>
      if is_undefined x && negb keep then createPairs keep ps'
      else (k, createNode keep x) :: createPairs keep ps'
  end.

(** The document [parseAllDocuments] is to find for an input of
    [stringify]. *)
Definition document_of (d : value) : document :=
  if is_undefined d then {| contents := None; errors := [] |}
  else {| contents := Some (createNode true d); errors := [] |}.

Definition faithful_on (syn : Syntax) (d : value) : Prop :=
  is_undefined d = false ->
  faithful syn Yaml.stringify_options (createNode true d).

(** ** Sample inputs *)

Definition sample_library : YAML.Library := library Reference.syntax.

Definition sample_documents : list value :=
  [ VObj [("a", VNum 1); ("name", VStr "two words")];
    VArr [VNum 1; VArr []; VObj [("k", VNull)]];
    VStr "x"; VNum 0; VBool false; VStr "" ].

Definition sample_stream : string :=
  "a: 1" ++ nl ++ "---" ++ nl ++ nl ++ "---" ++ nl ++ "[]" ++ nl
  ++ "---" ++ nl ++ "0" ++ nl.


Definition sample_props : list (string * value) :=
  [("a", VUndefined); ("b", VNum 2)].

(** ** The guards of the loop of [load] *)

(** The four conditions under which the loop of [load] takes
    [continue], in the order of the source. *)
Definition skips (obj : value) : bool :=
  is_undefined obj
  || is_null obj
  || (Array_isArray obj && Nat.eqb (array_length obj) 0)
  || (type_tag_eqb (typeof obj) TObject
      && Nat.eqb (List.length (Object_keys obj)) 0).

Definition kept (obj : value) : bool := negb (skips obj).

(** An object that holds what it holds outside its properties: a [Set]
    or a [Map]. *)
Definition keyless (v : value) : bool :=
  match v with
  | VSet _ | VMap _ => true
  | _ => false
  end.

(** The value that is read back from what [stringify] writes for [v]:
    with [keepUndefined] the shape of [v] stays, and every undefined
    inside it has become null. *)
Fixpoint written (v : value) : value :=
  match v with
  | VUndefined => VNull
  | VNull | VBool _ | VNum _ | VStr _ => v
  | VArr items => VArr (map written items)
  | VObj props => VObj (map (fun kv => (fst kv, written (snd kv))) props)
  | VSet members => VSet (map written members)
  | VMap entries =>
      VMap (map (fun kv => (written (fst kv), written (snd kv))) entries)
  end.

(** The same for a whole document: an undefined document is written as
    a blank one and read back as undefined. *)
Definition read_back (d : value) : value :=
  if is_undefined d then VUndefined else written d.


(** A host whose fetch helper cannot be started. *)
Definition dead_host : Node.Host :=
  {| Node.execPath := "/usr/bin/node";
     Node.dirname := "/lib";
     Node.run := fun _ _ => Node.CannotSpawn |}.

Definition empty_fs : Node.filesystem := fun _ => None.

(** A disk without links that takes every write. *)
Definition open_disk : Node.Disk :=
  {| Node.file_of := fun p => p;
     Node.write_error := fun _ _ => None |}.

(** A disk on which the process may write nothing. *)
Definition closed_disk : Node.Disk :=
  {| Node.file_of := fun p => p;
     Node.write_error := fun _ _ => Some "EACCES" |}.

(** ** Auxiliary definitions for the reference syntax *)

Module ReferenceDefs.

Import Reference.

(** The parse that the text of a tree is to have. *)
Definition raw_of_string (ver : string) (s : string) : raw :=
  match resolve_plain ver s with
  | NStr _ => if plain_word s then RPlain s else RQuoted s
  | _ => RQuoted s
  end.

(** The unresolved document that resolves to [n] and that [flow] writes. *)
Fixpoint raw_of (ver : string) (n : node) : raw :=
  match n with
  | NNull => RPlain "null"
  | NBool true => RPlain "true"
  | NBool false => RPlain "false"
  | NNum z => RPlain (NilZero.string_of_int (Z.to_int z))
  | NStr s => raw_of_string ver s
  | NSeq items => RSeq (map (raw_of ver) items)
  | NMap pairs => RMap (map (fun kv => (fst kv, raw_of ver (snd kv))) pairs)
  | NSet members => RSet (map (raw_of ver) members)
  | NOmap entries =>
      ROmap (map (fun kv => (raw_of ver (fst kv), raw_of ver (snd kv)))
                 entries)
  | NAlias name => RAlias name
  end.

(** A tree of mappings, sequences and scalars: what the reference
    syntax reads. *)
Fixpoint core (n : node) : bool :=
  match n with
  | NNull | NBool _ | NNum _ | NStr _ => true
  | NSeq items => forallb core items
  | NMap pairs => forallb (fun kv => core (snd kv)) pairs
  | NSet _ | NOmap _ | NAlias _ => false
  end.

(** A character that can start the text of a flow value. *)
Definition opener (c : ascii) : bool :=
  plain_char c || Ascii.eqb c DQ || Ascii.eqb c "[" || Ascii.eqb c "{".

(** The first character of [s] satisfies [p]. *)
Definition head_is (p : ascii -> bool) (s : string) : bool :=
  match s with
  | EmptyString => false
  | String c _ => p c
  end.

(** A remainder in front of which a plain scalar ends. *)
Definition stops (s : string) : bool :=
  match s with
  | EmptyString => true
  | String c _ => negb (plain_char c)
  end.

(** The decimal text of a number. *)
Definition print (z : Z) : string := NilZero.string_of_int (Z.to_int z).

Definition digit (c : ascii) : bool := in_range 48 57 c.

Definition numeric (c : ascii) : bool := digit c || Ascii.eqb c "-".

Definition scalar_start (c : ascii) : bool := plain_char c || Ascii.eqb c DQ.

(** The text of one entry of a mapping. *)
Definition entry_text (ver : string) (kv : string * node) : string :=
  key_text (fst kv) ++ ": " ++ flow ver (snd kv).

Definition raw_entry (ver : string) (kv : string * node) : string * raw :=
  (fst kv, raw_of ver (snd kv)).

(** The text of [n] starts like a flow value, and [parse_flow] reads it
    in front of any remainder at which a plain scalar stops, given fuel
    for the whole input. *)
Definition reads (ver : string) (n : node) : Prop :=
  head_is opener (flow ver n) = true
  /\ forall fuel rest,
       stops rest = true ->
       2 * String.length (flow ver n ++ rest) + 1 <= fuel ->
       parse_flow fuel (flow ver n ++ rest) = Some (raw_of ver n, rest).

(** The text of one entry of a block sequence. *)
Definition item_text (ver : string) (n : node) : string :=
  "- " ++ flow ver n.

(** A character that starts a key or a string scalar: never a dash. *)
Definition word_start (c : ascii) : bool :=
  plain_char c && negb (Ascii.eqb c "-") || Ascii.eqb c DQ.

(** [s] starts like an entry of a block sequence. *)
Definition item_mark (s : string) : bool :=
  match starts_with "-" s with
  | Some r => match starts_with " " r with Some _ => true | None => false end
  | None => false
  end.

(** The lines [render_document] writes for a tree. *)
Definition top_lines (ver : string) (n : node) : list string :=
  match n with
  | NMap (p :: ps) => map (entry_text ver) (p :: ps)
  | NSeq (x :: xs) => map (item_text ver) (x :: xs)
  | _ => [flow ver n]
  end.

(** A line that is neither blank nor the separator. *)
Definition content_line (l : string) : Prop :=
  is_line l /\ String.eqb l "---" = false /\ is_blank l = false.

End ReferenceDefs.

(** ** Induction on values *)

Section ValueInduction.

Variable P : value -> Prop.
Hypothesis Pundefined : P VUndefined.
Hypothesis Pnull : P VNull.
Hypothesis Pbool : forall b, P (VBool b).
Hypothesis Pnum : forall n, P (VNum n).
Hypothesis Pstr : forall s, P (VStr s).
Hypothesis Parr : forall items, Forall P items -> P (VArr items).
Hypothesis Pobj :
  forall props, Forall (fun kv => P (snd kv)) props -> P (VObj props).
Hypothesis Pset : forall members, Forall P members -> P (VSet members).
Hypothesis Pmap :
  forall entries,
    Forall (fun kv => P (fst kv) /\ P (snd kv)) entries -> P (VMap entries).

Fixpoint value_ind (v : value) : P v :=
  match v with
  | VUndefined => Pundefined
  | VNull => Pnull
  | VBool b => Pbool b
  | VNum n => Pnum n
  | VStr s => Pstr s
  | VArr items =>
      Parr items
        ((fix go (l : list value) : Forall P l :=
            match l with
            | [] => Forall_nil P
            | x :: l' => Forall_cons x (value_ind x) (go l')
            end) items)
  | VObj props =>
      Pobj props
        ((fix go (l : list (string * value))
            : Forall (fun kv => P (snd kv)) l :=
            match l with
            | [] => Forall_nil _
            | kv :: l' => Forall_cons kv (value_ind (snd kv)) (go l')
            end) props)
  | VSet members =>
      Pset members
        ((fix go (l : list value) : Forall P l :=
            match l with
            | [] => Forall_nil P
            | x :: l' => Forall_cons x (value_ind x) (go l')
            end) members)
  | VMap entries =>
      Pmap entries
        ((fix go (l : list (value * value))
            : Forall (fun kv => P (fst kv) /\ P (snd kv)) l :=
            match l with
            | [] => Forall_nil _
            | kv :: l' =>
                Forall_cons kv
                  (conj (value_ind (fst kv)) (value_ind (snd kv))) (go l')
            end) entries)
  end.

End ValueInduction.

(** ** Induction on document trees *)

Section NodeInduction.

Variable P : node -> Prop.
Hypothesis Pnull : P NNull.
Hypothesis Pbool : forall b, P (NBool b).
Hypothesis Pnum : forall z, P (NNum z).
Hypothesis Pstr : forall s, P (NStr s).
Hypothesis Pseq : forall items, Forall P items -> P (NSeq items).
Hypothesis Pmap :
  forall pairs, Forall (fun kv => P (snd kv)) pairs -> P (NMap pairs).
Hypothesis Pset : forall members, Forall P members -> P (NSet members).
Hypothesis Pomap :
  forall entries,
    Forall (fun kv => P (fst kv) /\ P (snd kv)) entries -> P (NOmap entries).
Hypothesis Palias : forall name, P (NAlias name).

Fixpoint node_ind (n : node) : P n :=
  match n with
  | NNull => Pnull
  | NBool b => Pbool b
  | NNum z => Pnum z
  | NStr s => Pstr s
  | NSeq items =>
      Pseq items
        ((fix go (l : list node) : Forall P l :=
            match l with
            | [] => Forall_nil P
            | x :: l' => Forall_cons x (node_ind x) (go l')
            end) items)
  | NMap pairs =>
      Pmap pairs
        ((fix go (l : list (string * node))
            : Forall (fun kv => P (snd kv)) l :=
            match l with
            | [] => Forall_nil _
            | kv :: l' => Forall_cons kv (node_ind (snd kv)) (go l')
            end) pairs)
  | NSet members =>
      Pset members
        ((fix go (l : list node) : Forall P l :=
            match l with
            | [] => Forall_nil P
            | x :: l' => Forall_cons x (node_ind x) (go l')
            end) members)
  | NOmap entries =>
      Pomap entries
        ((fix go (l : list (node * node))
            : Forall (fun kv => P (fst kv) /\ P (snd kv)) l :=
            match l with
            | [] => Forall_nil _
            | kv :: l' =>
                Forall_cons kv
                  (conj (node_ind (fst kv)) (node_ind (snd kv))) (go l')
            end) entries)
  | NAlias name => Palias name
  end.

End NodeInduction.

(** ** The empty-document filter of [load] *)

Section Filter.

Context {lib : YAML.Library} {host : Node.Host}.

Lemma load_step_spec (result : list value) (obj : value) :
  Yaml.load_step result obj
  = if skips obj then result else (result ++ [obj])%list.
Proof.
  unfold Yaml.load_step, skips.
  destruct (is_undefined obj); [reflexivity | ].
  destruct (is_null obj); [reflexivity | ].
  destruct (Array_isArray obj && Nat.eqb (array_length obj) 0);
    [reflexivity | ].
  now destruct (type_tag_eqb (typeof obj) TObject
                && Nat.eqb (List.length (Object_keys obj)) 0).
Qed.

Lemma load_loop_from (raws : list value) :
  forall acc,
    fold_left Yaml.load_step raws acc = (acc ++ filter kept raws)%list.
Proof.
  induction raws as [ | v raws IH]; intros acc; simpl.
  - now rewrite app_nil_r.
  - rewrite IH, load_step_spec. unfold kept at 2.
    destruct (skips v); simpl.
    + reflexivity.
    + now rewrite <- app_assoc.
Qed.

(** The loop is the filter by its four guards. *)
Lemma load_loop_kept (raws : list value) :
  Yaml.load_loop raws = filter kept raws.
Proof. unfold Yaml.load_loop. now rewrite load_loop_from. Qed.


(** The guards take what the specification calls empty, and every [Set]
    and [Map] besides. *)
Lemma skips_cases (v : value) :
  skips v = classified_empty v || keyless v.
Proof.
  destruct v as [ | | b | n | s | [ | x items] | [ | kv props] | ms | es];
    reflexivity.
Qed.




Lemma mapM_map_ok {A B C : Type} (f : B -> result C) (g : A -> B)
    (h : A -> C) (l : list A) :
  Forall (fun a => f (g a) = Ok (h a)) l ->
  mapM f (map g l) = Ok (map h l).
Proof.
  induction 1 as [ | a l Ha _ IH]; simpl; [reflexivity | ].
  now rewrite Ha, IH.
Qed.

(** [mapM] throws what the first failing element throws. *)
Lemma mapM_throw_iff {A B : Type} (f : A -> result B) (l : list A)
    (e : error) :
  mapM f l = Throw e
  <-> exists before a after bs,
        l = (before ++ a :: after)%list
        /\ mapM f before = Ok bs
        /\ f a = Throw e.
Proof.
  split.
  - induction l as [ | a l IH]; simpl; intros H; [discriminate H | ].
    destruct (f a) as [b | e'] eqn:E; simpl in H.
    + destruct (mapM f l) as [bs | e'] eqn:El; simpl in H; [discriminate H | ].
      inversion H. subst e'.
      destruct (IH eq_refl) as [before [x [after [bs [-> [Hb Hx]]]]]].
      exists (a :: before), x, after, (b :: bs).
      split; [reflexivity | ]. split; [ | exact Hx].
      simpl. now rewrite E, Hb.
    + inversion H. subst e'.
      exists [], a, l, []. now repeat split.
  - intros [before [a [after [bs [-> [Hb Ha]]]]]].
    revert bs Hb. induction before as [ | x before IH]; intros bs Hb.
    + simpl. now rewrite Ha.
    + simpl in *. destruct (f x) as [b | e']; simpl in *; [ | discriminate Hb].
      destruct (mapM f before) as [bs' | e'] eqn:E; simpl in *;
        [ | discriminate Hb].
      now rewrite (IH bs' eq_refl).
Qed.




End Filter.

(** ** Strings *)

Lemma append_assoc (a b c : string) : (a ++ b) ++ c = a ++ (b ++ c).
Proof. induction a as [ | x a IH]; simpl; [reflexivity | now rewrite IH]. Qed.

Lemma append_nil_r (a : string) : a ++ "" = a.
Proof. induction a as [ | x a IH]; simpl; [reflexivity | now rewrite IH]. Qed.

(** ** [Array.prototype.join] *)

Section Join.

Variable sep : string.

Lemma join_from (xs : list string) :
  forall k R,
    snd (fold_left (join_step sep) xs (S k, R)) = R ++ tail_text sep xs.
Proof.
  induction xs as [ | x xs IH]; intros k R; simpl.
  - now rewrite append_nil_r.
  - rewrite IH. now rewrite !append_assoc.
Qed.

Lemma concat_cons (x : string) (xs : list string) :
  String.concat sep (x :: xs) = x ++ tail_text sep xs.
Proof.
  revert x. induction xs as [ | y xs IH]; intros x.
  - simpl. now rewrite append_nil_r.
  - change (String.concat sep (x :: y :: xs))
      with (x ++ sep ++ String.concat sep (y :: xs)).
    rewrite IH. reflexivity.
Qed.

Lemma Array_join_concat (xs : list string) :
  Array_join sep xs = String.concat sep xs.
Proof.
  destruct xs as [ | x xs]; [reflexivity | ].
  unfold Array_join. simpl fold_left.
  rewrite join_from, concat_cons. reflexivity.
Qed.

End Join.

(** ** [stringify] and [formatObjects] *)

Section Stringify.

Context {lib : YAML.Library}.

(** C3. [stringify] returns the per-document texts of its inputs, a
    blank line for an undefined one and the YAML serialization for any
    other, joined in input order by the separator and a line feed; for
    the empty list it returns the empty string. *)
Theorem stringify_joins_documents (docs : list value) :
  Yaml.stringify docs
  = String.concat ("---" ++ nl)
      (map (fun r => match r with
                     | VUndefined => nl
                     | _ => YAML.stringify r Yaml.stringify_options
                     end) docs)
  /\ List.length (map Yaml.document_text docs) = List.length docs
  /\ Yaml.stringify [] = "".
Proof.
  split; [ | split].
  - unfold Yaml.stringify. rewrite Array_join_concat. f_equal.
    apply map_ext. intros r. now destruct r.
  - apply length_map.
  - reflexivity.
Qed.

(** C9. The deprecated [formatObjects(docs)] returns the same string as
    [stringify(...docs)]. *)
Theorem formatObjects_is_stringify (docs : list value) :
  Yaml.formatObjects docs = Yaml.stringify docs.
Proof. reflexivity. Qed.

Lemma stringify_concat (docs : list value) :
  Yaml.stringify docs
  = String.concat ("---" ++ nl) (map Yaml.document_text docs).
Proof. unfold Yaml.stringify. apply Array_join_concat. Qed.

End Stringify.

(** ** The fetch phase of [load] *)

Section Fetch.

Context {lib : YAML.Library} {host : Node.Host}.

(** A successful fetch hands over the whole output of the helper. *)
Lemma loadurl_ok (url body : string) :
  Yaml.loadurl url = Ok body ->
  Node.run Node.execPath (fetch_command url) = Node.Exited 0 body
  /\ (Z.of_nat (String.length body) <= Yaml.MAX_DOWNLOAD_BUFFER)%Z.
Proof.
  unfold Yaml.loadurl, Node.execFileSync, fetch_command. simpl.
  destruct (Node.run _ _) as [ | status out]; [discriminate | ].
  destruct (Z.ltb_spec Yaml.MAX_DOWNLOAD_BUFFER (Z.of_nat (String.length out)));
    [discriminate | ].
  destruct (Z.eqb_spec status 0); [ | discriminate].
  intros E. inversion E. subst. split; [reflexivity | assumption].
Qed.

(** C6. If the fetch helper exits with a nonzero status, or writes more
    than the cap of 10 MiB, [load] fails with a fetch failure and returns
    no document list; no shortened output is ever passed on. *)
Theorem load_fetch_failure (url : string) (status : Z) (out : string) :
  Node.run Node.execPath (fetch_command url) = Node.Exited status out ->
  status <> 0%Z \/ (10485760 < Z.of_nat (String.length out))%Z ->
  (exists why, Yaml.load url = Throw (FetchError why))
  /\ (forall docs, Yaml.load url <> Ok docs)
  /\ (forall body, Yaml.loadurl url <> Ok body).
Proof.
  intros Hrun Hbad.
  assert (Hload : exists why, Yaml.loadurl url = Throw (FetchError why)).
  { unfold Yaml.loadurl, Node.execFileSync. fold (fetch_command url).
    rewrite Hrun. simpl.
    change Yaml.MAX_DOWNLOAD_BUFFER with 10485760%Z.
    destruct (Z.ltb_spec 10485760 (Z.of_nat (String.length out))).
    - now exists BufferExceeded.
    - destruct (Z.eqb_spec status 0) as [E | NE].
      + destruct Hbad as [Hbad | Hbad]; [contradiction | lia].
      + now exists (NonZeroExit status). }
  destruct Hload as [why Hload].
  unfold Yaml.load. rewrite Hload. simpl.
  repeat split.
  - now exists why.
  - discriminate.
  - discriminate.
Qed.

End Fetch.

(** ** Framing a stream *)

Lemma lines_line (l s : string) :
  is_line l -> lines (l ++ nl ++ s) = l :: lines s.
Proof.
  unfold is_line. change (nl ++ s) with (String LF s).
  induction l as [ | c l IH]; intros H.
  - reflexivity.
  - simpl in H. apply orb_false_iff in H. destruct H as [Hc Hl].
    change (lines (String c l ++ String LF s))
      with (if Ascii.eqb c LF then EmptyString :: lines (l ++ String LF s)
            else match lines (l ++ String LF s) with
                 | [] => [String c EmptyString]
                 | x :: ls => String c x :: ls
                 end).
    rewrite Hc. now rewrite (IH Hl).
Qed.

Lemma lines_unlines_app (ls : list string) (s : string) :
  Forall is_line ls -> lines (unlines ls ++ s) = (ls ++ lines s)%list.
Proof.
  induction 1 as [ | l ls Hl _ IH].
  - reflexivity.
  - change (unlines (l :: ls)) with (l ++ nl ++ unlines ls).
    rewrite !append_assoc. rewrite (lines_line _ _ Hl). now rewrite IH.
Qed.

Lemma lines_unlines (ls : list string) :
  Forall is_line ls -> lines (unlines ls) = ls.
Proof.
  intros H. rewrite <- (append_nil_r (unlines ls)).
  rewrite (lines_unlines_app _ _ H). simpl. apply app_nil_r.
Qed.

Lemma lines_are_lines (s : string) : Forall is_line (lines s).
Proof.
  induction s as [ | c s IH]; simpl.
  - constructor.
  - destruct (Ascii.eqb c LF) eqn:Hc.
    + constructor; [reflexivity | assumption].
    + destruct (lines s) as [ | l ls].
      * constructor; [ | constructor].
        unfold is_line. simpl. now rewrite Hc.
      * inversion IH as [ | ? ? Hl Hls]. subst.
        constructor; [ | assumption].
        unfold is_line in *. simpl. now rewrite Hc.
Qed.

Lemma unlines_app (a b : list string) :
  unlines (a ++ b) = unlines a ++ unlines b.
Proof.
  induction a as [ | l a IH]; [reflexivity | ].
  change (unlines ((l :: a) ++ b)) with (l ++ nl ++ unlines (a ++ b)).
  change (unlines (l :: a)) with (l ++ nl ++ unlines a).
  now rewrite IH, !append_assoc.
Qed.

Lemma blocks_single (b : list string) :
  no_separator b = true -> blocks b = [b].
Proof.
  induction b as [ | l b IH]; simpl; intros H.
  - reflexivity.
  - apply andb_true_iff in H. destruct H as [Hl Hb].
    apply negb_true_iff in Hl. rewrite Hl. now rewrite (IH Hb).
Qed.

Lemma blocks_nonempty (ls : list string) : blocks ls <> [].
Proof.
  induction ls as [ | l ls IH]; simpl.
  - discriminate.
  - destruct (String.eqb l "---"); [discriminate | ].
    destruct (blocks ls); discriminate.
Qed.

Lemma blocks_app (b rest : list string) :
  no_separator b = true ->
  blocks (b ++ "---" :: rest) = b :: blocks rest.
Proof.
  induction b as [ | l b IH]; simpl; intros H.
  - reflexivity.
  - apply andb_true_iff in H. destruct H as [Hl Hb].
    apply negb_true_iff in Hl. rewrite Hl. now rewrite (IH Hb).
Qed.

Lemma blocks_stream_lines (bs : list (list string)) :
  bs <> [] ->
  Forall (fun b => no_separator b = true) bs ->
  blocks (stream_lines bs) = bs.
Proof.
  intros Hne H. induction H as [ | b bs Hb Hbs IH]; [contradiction | ].
  destruct bs as [ | b' bs'].
  - simpl. now apply blocks_single.
  - change (stream_lines (b :: b' :: bs'))
      with (b ++ "---" :: stream_lines (b' :: bs'))%list.
    rewrite (blocks_app _ _ Hb). rewrite IH; [reflexivity | discriminate].
Qed.

Lemma concat_unlines (bs : list (list string)) :
  String.concat ("---" ++ nl) (map unlines bs) = unlines (stream_lines bs).
Proof.
  induction bs as [ | b bs IH]; [reflexivity | ].
  destruct bs as [ | b' bs'].
  - reflexivity.
  - change (String.concat ("---" ++ nl) (map unlines (b :: b' :: bs')))
      with (unlines b ++ ("---" ++ nl)
              ++ String.concat ("---" ++ nl) (map unlines (b' :: bs'))).
    rewrite IH.
    change (stream_lines (b :: b' :: bs'))
      with (b ++ "---" :: stream_lines (b' :: bs'))%list.
    rewrite unlines_app. simpl unlines at 3. reflexivity.
Qed.

Lemma stream_lines_are_lines (bs : list (list string)) :
  Forall (Forall is_line) bs -> Forall is_line (stream_lines bs).
Proof.
  induction 1 as [ | b bs Hb Hbs IH]; [constructor | ].
  destruct bs as [ | b' bs'].
  - exact Hb.
  - change (stream_lines (b :: b' :: bs'))
      with (b ++ "---" :: stream_lines (b' :: bs'))%list.
    apply Forall_app. split; [exact Hb | ].
    constructor; [reflexivity | exact IH].
Qed.

Lemma well_framed_lines (t : string) :
  well_framed t = true ->
  t <> "" /\ unlines (lines t) = t /\ no_separator (lines t) = true.
Proof.
  unfold well_framed. intros H.
  apply andb_true_iff in H. destruct H as [H H3].
  apply andb_true_iff in H. destruct H as [H1 H2].
  apply negb_true_iff in H1. apply String.eqb_neq in H1.
  apply String.eqb_eq in H2. now repeat split.
Qed.

Lemma concat_empty (sep t : string) (ts : list string) :
  t <> "" -> String.concat sep (t :: ts) <> "".
Proof.
  intros Ht. destruct ts; simpl.
  - exact Ht.
  - destruct t; [contradiction | discriminate].
Qed.

(** Splitting the joined texts of well-framed documents gives the texts
    back. *)
Lemma split_stream_concat (ts : list string) :
  Forall (fun t => well_framed t = true) ts ->
  split_stream (String.concat ("---" ++ nl) ts) = ts.
Proof.
  intros H. destruct ts as [ | t ts']; [reflexivity | ].
  unfold split_stream.
  assert (Hne : String.concat ("---" ++ nl) (t :: ts') <> "").
  { apply concat_empty. inversion H as [ | ? ? Ht _]. subst.
    now apply well_framed_lines in Ht. }
  apply String.eqb_neq in Hne. rewrite Hne. clear Hne.
  set (ts := t :: ts') in *.
  assert (Hts : map unlines (map lines ts) = ts).
  { rewrite map_map. rewrite <- (map_id ts) at 2.
    apply map_ext_in. intros x Hx.
    rewrite Forall_forall in H. apply H in Hx.
    now apply well_framed_lines in Hx. }
  rewrite <- Hts at 1. rewrite concat_unlines.
  rewrite lines_unlines.
  - rewrite blocks_stream_lines.
    + exact Hts.
    + subst ts. discriminate.
    + apply Forall_forall. intros b Hb. apply in_map_iff in Hb.
      destruct Hb as [x [<- Hx]].
      rewrite Forall_forall in H. apply H in Hx.
      now apply well_framed_lines in Hx.
  - apply stream_lines_are_lines.
    apply Forall_forall. intros b Hb. apply in_map_iff in Hb.
    destruct Hb as [x [<- _]]. apply lines_are_lines.
Qed.

(** ** Document trees *)

Lemma createNode_VObj (keep : bool) (props : list (string * value)) :
  createNode keep (VObj props) = NMap (createPairs keep props).
Proof.
  simpl. f_equal.
  induction props as [ | [k x] props IH]; simpl; [reflexivity | ].
  now rewrite IH.
Qed.

(** With [keepUndefined] every property of a mapping has its pair. *)
Lemma createPairs_true (props : list (string * value)) :
  createPairs true props
  = map (fun kv => (fst kv, createNode true (snd kv))) props.
Proof.
  induction props as [ | [k x] props IH]; simpl; [reflexivity | ].
  rewrite andb_false_r. now rewrite IH.
Qed.

Lemma createPairs_keys (props : list (string * value)) :
  map fst (createPairs true props) = map fst props.
Proof.
  rewrite createPairs_true, map_map. reflexivity.
Qed.

Lemma createPairs_undefined (props : list (string * value)) (k : string) :
  In (k, VUndefined) props -> In (k, NNull) (createPairs true props).
Proof.
  intros H. rewrite createPairs_true. apply in_map_iff.
  exists (k, VUndefined). now split.
Qed.

Lemma plain_data_defined (v : value) :
  plain_data v = true -> is_undefined v = false.
Proof. destruct v; simpl; intros H; try reflexivity; discriminate H. Qed.

(** Plain data is read back as it is. *)
Lemma written_plain (v : value) : plain_data v = true -> written v = v.
Proof.
  induction v as [ | | b | n | s | items IH | props IH | ms IH | es IH]
    using value_ind; intros H; try reflexivity; try discriminate H.
  - simpl in *. f_equal. rewrite <- (map_id items) at 2.
    apply map_ext_in. intros x Hx.
    rewrite Forall_forall in IH. apply IH; [exact Hx | ].
    rewrite forallb_forall in H. now apply H.
  - simpl in *. f_equal. rewrite <- (map_id props) at 2.
    apply map_ext_in. intros [k x] Hx.
    rewrite Forall_forall in IH. simpl. f_equal.
    apply (IH (k, x) Hx).
    rewrite forallb_forall in H. now apply (H (k, x)).
Qed.

(** The tree [stringify] builds for a value converts, without a throw,
    to the value with null in the place of every undefined. *)
Lemma node_to_value_createNode (v : value) :
  node_to_value (createNode true v) = Ok (written v).
Proof.
  induction v as [ | | b | n | s | items IH | props IH | ms IH | es IH]
    using value_ind; try reflexivity.
  - change (createNode true (VArr items))
      with (NSeq (map (createNode true) items)).
    cbn [node_to_value].
    now rewrite (mapM_map_ok _ _ written _ IH).
  - rewrite createNode_VObj, createPairs_true. cbn [node_to_value].
    rewrite (mapM_map_ok _ _ (fun kv => (fst kv, written (snd kv)))).
    + reflexivity.
    + eapply Forall_impl; [ | exact IH].
      intros kv Hkv. simpl. now rewrite Hkv.
  - change (createNode true (VSet ms))
      with (NSet (map (createNode true) ms)).
    cbn [node_to_value].
    now rewrite (mapM_map_ok _ _ written _ IH).
  - change (createNode true (VMap es))
      with (NOmap (map (fun kv => (createNode true (fst kv),
                                   createNode true (snd kv))) es)).
    cbn [node_to_value].
    rewrite (mapM_map_ok _ _ (fun kv => (written (fst kv), written (snd kv)))).
    + reflexivity.
    + eapply Forall_impl; [ | exact IH].
      intros kv [Hk Hv]. simpl. now rewrite Hk, Hv.
Qed.





Lemma toJSON_document_of (d : value) :
  toJSON (document_of d) = Ok (read_back d).
Proof.
  unfold document_of, read_back.
  destruct (is_undefined d); [reflexivity | ].
  apply node_to_value_createNode.
Qed.

Lemma toJSON_documents (D : list value) :
  mapM toJSON (map document_of D) = Ok (map read_back D).
Proof.
  apply mapM_map_ok. apply Forall_forall. intros d _.
  apply toJSON_document_of.
Qed.



(** ** Parsing what [stringify] wrote *)

Section Codec.

Variable syn : Syntax.

Let lib : YAML.Library := library syn.

Lemma nl_well_framed : well_framed nl = true.
Proof. reflexivity. Qed.

Lemma document_text_framed (d : value) :
  faithful_on syn d -> well_framed (@Yaml.document_text lib d) = true.
Proof.
  unfold faithful_on, Yaml.document_text. intros H.
  destruct (is_undefined d).
  - reflexivity.
  - now destruct (H eq_refl).
Qed.

Lemma document_text_parses (d : value) :
  faithful_on syn d ->
  parseDocument Yaml.yamlSchemaVersion (@Yaml.document_text lib d)
  = document_of d.
Proof.
  unfold faithful_on, Yaml.document_text, document_of. intros H.
  destruct (is_undefined d).
  - reflexivity.
  - now destruct (H eq_refl).
Qed.

Lemma parse_stringify (D : list value) :
  Forall (faithful_on syn) D ->
  @YAML.parseAllDocuments lib (@Yaml.stringify lib D) Yaml.load_options
  = Ok (map document_of D).
Proof.
  intros H. rewrite stringify_concat.
  simpl YAML.parseAllDocuments. unfold parseAllDocuments.
  rewrite split_stream_concat.
  - simpl YAML.Parse.version. f_equal. rewrite map_map.
    apply map_ext_in. intros d Hd.
    rewrite Forall_forall in H. now apply document_text_parses, H.
  - apply Forall_forall. intros t Ht. apply in_map_iff in Ht.
    destruct Ht as [d [<- Hd]].
    rewrite Forall_forall in H. now apply document_text_framed, H.
Qed.

End Codec.

(** ** Writing and reading back *)

Lemma filter_all {A : Type} (p : A -> bool) (l : list A) :
  Forall (fun a => p a = true) l -> filter p l = l.
Proof.
  induction 1 as [ | a l Ha _ IH]; simpl; [reflexivity | ].
  now rewrite Ha, IH.
Qed.

(** Where the syntax is faithful, [load] gives back what passes the
    guards of the documents as they are read back. *)
Lemma load_body_stringify (syn : Syntax) (D : list value) :
  Forall (faithful_on syn) D ->
  @Yaml.load_body (library syn) (@Yaml.stringify (library syn) D)
  = Ok (filter kept (map read_back D)).
Proof.
  intros H. unfold Yaml.load_body.
  rewrite (parse_stringify syn D H). cbn [bind].
  change (@YAML.toJSON (library syn)) with toJSON.
  rewrite toJSON_documents. cbn [bind].
  now rewrite load_loop_kept.
Qed.

Lemma plain_kept (d : value) :
  plain_data d = true -> classified_empty d = false -> kept d = true.
Proof.
  intros Hp He. unfold kept. rewrite skips_cases, He.
  destruct d; try reflexivity; discriminate Hp.
Qed.

Lemma read_back_plain (d : value) : plain_data d = true -> read_back d = d.
Proof.
  intros H. unfold read_back. rewrite (plain_data_defined _ H).
  now apply written_plain.
Qed.

(** Plain data without empty documents passes conversion and filter
    unchanged. *)
Lemma filter_documents (D : list value) :
  Forall (fun d => plain_data d = true /\ classified_empty d = false) D ->
  filter kept (map read_back D) = D.
Proof.
  induction 1 as [ | d D [Hp He] _ IH]; [reflexivity | ].
  cbn [map filter]. rewrite (read_back_plain d Hp).
  rewrite (plain_kept d Hp He). now rewrite IH.
Qed.



(** C7. [stringify(undefined, {a:1})] is two blocks around one
    separator, the first the blank line that stands for undefined;
    parsing it gives the undefined marker and the mapping, and the filter
    of [load] leaves exactly the mapping. *)
Theorem undefined_block_elided (syn : Syntax) :
  faithful syn Yaml.stringify_options (createNode true (VObj [("a", VNum 1)])) ->
  let block := @YAML.stringify (library syn) (VObj [("a", VNum 1)])
                 Yaml.stringify_options in
  let text := @Yaml.stringify (library syn) [VUndefined; VObj [("a", VNum 1)]] in
  text = nl ++ "---" ++ nl ++ block
  /\ split_stream text = [nl; block]
  /\ (exists objects,
        @YAML.parseAllDocuments (library syn) text Yaml.load_options
        = Ok objects
        /\ mapM toJSON objects = Ok [VUndefined; VObj [("a", VNum 1)]])
  /\ @Yaml.load_body (library syn) text = Ok [VObj [("a", VNum 1)]].
Proof.
  intros Hsyn block text.
  assert (HD : Forall (faithful_on syn) [VUndefined; VObj [("a", VNum 1)]]).
  { constructor; [intros E; discriminate E | ].
    constructor; [intros _; exact Hsyn | constructor]. }
  assert (Htext : text = nl ++ "---" ++ nl ++ block) by reflexivity.
  split; [exact Htext | ]. split; [ | split].
  - rewrite Htext.
    change (nl ++ "---" ++ nl ++ block)
      with (String.concat ("---" ++ nl) [nl; block]).
    apply split_stream_concat.
    constructor; [reflexivity | ].
    constructor; [now destruct Hsyn | constructor].
  - exists (map document_of [VUndefined; VObj [("a", VNum 1)]]).
    split; [apply (parse_stringify syn _ HD) | reflexivity].
  - subst text. rewrite (load_body_stringify syn _ HD). reflexivity.
Qed.

(** C8. A mapping with a property whose value is undefined is serialized
    with that property: the tree [stringify] writes has a pair for every
    key of the mapping, the undefined one with a null value, and reading
    the text back gives a mapping that has the key. *)
Theorem undefined_property_emitted (syn : Syntax)
    (props : list (string * value)) (k : string) :
  In (k, VUndefined) props ->
  faithful syn Yaml.stringify_options (createNode true (VObj props)) ->
  exists pairs,
    @Yaml.stringify (library syn) [VObj props]
    = render Yaml.stringify_options (NMap pairs)
    /\ map fst pairs = map fst props
    /\ In (k, NNull) pairs
    /\ exists props',
         @Yaml.load_body (library syn) (@Yaml.stringify (library syn) [VObj props])
         = Ok [VObj props']
         /\ In (k, VNull) props'.
Proof.
  intros Hin Hsyn.
  assert (Hpairs := createPairs_undefined props k Hin).
  exists (createPairs true props). repeat split.
  - rewrite <- createNode_VObj. reflexivity.
  - apply createPairs_keys.
  - exact Hpairs.
  - exists (map (fun kv => (fst kv, written (snd kv))) props).
    split.
    + rewrite load_body_stringify.
      * cbn [map]. destruct props as [ | p ps]; [destruct Hin | reflexivity].
      * constructor; [intros _; exact Hsyn | constructor].
    + apply in_map_iff. exists (k, VUndefined). now split.
Qed.

(** ** Malformed streams *)


(** Whatever the text, the parse phase of [load] returns: one document
    for each block of the stream.  What [load] then does is all in the
    conversion and the loop. *)
Lemma load_body_parses (syn : Syntax) (body : string) :
  @Yaml.load_body (library syn) body
  = (raws <- mapM toJSON
               (map (parseDocument Yaml.yamlSchemaVersion) (split_stream body)) ;;
     Ok (Yaml.load_loop raws)).
Proof. reflexivity. Qed.



(** ** The schema version *)

(** A stream of one document. *)
Lemma load_body_single (syn : Syntax) (t : string) (r : raw) :
  well_framed t = true ->
  is_blank t = false ->
  parse t = inr r ->
  @Yaml.load_body (library syn) t
  = (v <- node_to_value (resolve Yaml.yamlSchemaVersion r) ;;
     Ok (filter kept [v])).
Proof.
  intros Hframed Hblank Hparse.
  rewrite load_body_parses.
  change t with (String.concat ("---" ++ nl) [t]) at 1.
  rewrite split_stream_concat by (constructor; [exact Hframed | constructor]).
  cbn [map mapM]. unfold parseDocument, toJSON. rewrite Hblank, Hparse.
  cbn [contents].
  destruct (node_to_value _) as [v | e]; [ | reflexivity].
  cbn [bind]. now rewrite load_loop_kept.
Qed.

(** C4. [stringify] and [load] hand the same fixed schema version 1.1
    to the package; under it a document that holds the unquoted literal
    0775 loads as the number 509. *)
Theorem octal_under_schema_1_1 (syn : Syntax) :
  parse ("0775" ++ nl) = inr (RPlain "0775") ->
  (forall r,
     @Yaml.document_text (library syn) r
     = if is_undefined r then nl
       else @YAML.stringify (library syn) r
              {| YAML.ToString.keepUndefined := true;
                 YAML.ToString.lineWidth := 0;
                 YAML.ToString.version := "1.1" |})
  /\ (forall body,
        @Yaml.load_body (library syn) body
        = (objects <- @YAML.parseAllDocuments (library syn) body
                        {| YAML.Parse.version := "1.1" |} ;;
           raws <- mapM YAML.toJSON objects ;;
           Ok (Yaml.load_loop raws)))
  /\ YAML.ToString.version Yaml.stringify_options
     = YAML.Parse.version Yaml.load_options
  /\ @Yaml.load_body (library syn) ("0775" ++ nl) = Ok [VNum 509].
Proof.
  intros Hplain.
  split; [reflexivity | ]. split; [reflexivity | ]. split; [reflexivity | ].
  rewrite (load_body_single syn _ (RPlain "0775")); auto.
Qed.

(** ** The reference syntax reads back what it writes *)

Module ReferenceFacts.

Import Reference ReferenceDefs.

Lemma length_append (a b : string) :
  String.length (a ++ b) = String.length a + String.length b.
Proof. induction a as [ | c a IH]; simpl; [reflexivity | now rewrite IH]. Qed.

Lemma eqb_by (p : ascii -> bool) (c x : ascii) :
  p c = true -> p x = false -> Ascii.eqb c x = false.
Proof.
  intros Hc Hx. destruct (Ascii.eqb_spec c x) as [-> | _];
    [congruence | reflexivity].
Qed.

Lemma head_is_app (p : ascii -> bool) (a b : string) :
  head_is p a = true -> head_is p (a ++ b) = true.
Proof. destruct a; simpl; [discriminate | trivial]. Qed.

Lemma skip_spaces_head (p : ascii -> bool) (s : string) :
  p " "%char = false -> head_is p s = true -> skip_spaces s = s.
Proof.
  intros Hp. destruct s as [ | c s]; simpl; [reflexivity | ].
  intros Hc. now rewrite (eqb_by p c " " Hc Hp).
Qed.

Lemma starts_with_head (p : ascii -> bool) (x : ascii) (s : string) :
  p x = false -> head_is p s = true -> starts_with x s = None.
Proof.
  intros Hp. destruct s as [ | c s]; simpl; [reflexivity | ].
  intros Hc. now rewrite (eqb_by p c x Hc Hp).
Qed.

Lemma take_plain_app (w rest : string) :
  all_chars plain_char w = true -> stops rest = true ->
  take_plain (w ++ rest) = (w, rest).
Proof.
  intros Hw Hrest. induction w as [ | c w IH]; simpl in *.
  - destruct rest as [ | d rest]; [reflexivity | ].
    simpl in *. apply negb_true_iff in Hrest. now rewrite Hrest.
  - apply andb_true_iff in Hw. destruct Hw as [Hc Hw].
    rewrite Hc. now rewrite (IH Hw).
Qed.

Lemma take_quoted_escape (s rest : string) :
  take_quoted (escape s ++ String DQ rest) = Some (s, rest).
Proof.
  induction s as [ | c s IH]; simpl.
  - reflexivity.
  - destruct (Ascii.eqb_spec c DQ) as [-> | Hq].
    + simpl. rewrite IH. reflexivity.
    + destruct (Ascii.eqb_spec c BS) as [-> | Hb].
      * simpl. rewrite IH. reflexivity.
      * destruct (Ascii.eqb_spec c LF) as [-> | Hl].
        -- simpl. rewrite IH. reflexivity.
        -- simpl. apply Ascii.eqb_neq in Hq, Hb.
           rewrite Hq, Hb, IH. reflexivity.
Qed.

Lemma parse_scalar_quoted (s rest : string) :
  parse_scalar (quoted s ++ rest) = Some (RQuoted s, rest).
Proof.
  unfold quoted. simpl. rewrite append_assoc. simpl.
  now rewrite take_quoted_escape.
Qed.

Lemma parse_scalar_plain (w rest : string) :
  w <> "" -> all_chars plain_char w = true -> stops rest = true ->
  parse_scalar (w ++ rest) = Some (RPlain w, rest).
Proof.
  intros Hne Hw Hrest. destruct w as [ | c w]; [contradiction | ].
  unfold parse_scalar.
  change (String c w ++ rest) with (String c (w ++ rest)).
  cbv beta iota.
  assert (Hc : plain_char c = true).
  { simpl in Hw. now apply andb_true_iff in Hw. }
  rewrite (eqb_by plain_char c DQ Hc eq_refl).
  change (String c (w ++ rest)) with (String c w ++ rest).
  rewrite (take_plain_app _ _ Hw Hrest). reflexivity.
Qed.

Lemma digits_of_uint (d : Decimal.uint) :
  all_chars digit (NilEmpty.string_of_uint d) = true.
Proof. induction d; simpl; trivial. Qed.

Lemma digits_of_uint_zero (d : Decimal.uint) :
  all_chars digit (NilZero.string_of_uint d) = true.
Proof. destruct d; try reflexivity; apply (digits_of_uint _). Qed.

Lemma all_chars_weaken (p q : ascii -> bool) (s : string) :
  (forall c, p c = true -> q c = true) ->
  all_chars p s = true -> all_chars q s = true.
Proof.
  intros Hpq. induction s as [ | c s IH]; simpl; [trivial | ].
  intros H. apply andb_true_iff in H. destruct H as [Hc Hs].
  now rewrite (Hpq c Hc), (IH Hs).
Qed.

Lemma digit_plain (c : ascii) : digit c = true -> plain_char c = true.
Proof. unfold plain_char, digit. intros ->. reflexivity. Qed.

Lemma uint_nonempty (d : Decimal.uint) : NilZero.string_of_uint d <> "".
Proof. destruct d; discriminate. Qed.

Lemma print_plain (z : Z) : all_chars plain_char (print z) = true.
Proof.
  unfold print. destruct (Z.to_int z) as [d | d]; simpl.
  - apply (all_chars_weaken digit); [exact digit_plain | ].
    apply digits_of_uint_zero.
  - apply (all_chars_weaken digit); [exact digit_plain | ].
    apply digits_of_uint_zero.
Qed.

Lemma print_head (z : Z) : head_is numeric (print z) = true.
Proof.
  unfold print. destruct (Z.to_int z) as [d | d]; simpl.
  - pose proof (digits_of_uint_zero d) as H.
    pose proof (uint_nonempty d) as Hne.
    destruct (NilZero.string_of_uint d) as [ | c s]; [contradiction | ].
    simpl in *. apply andb_true_iff in H. destruct H as [Hc _].
    unfold numeric. now rewrite Hc.
  - reflexivity.
Qed.

Lemma print_nonempty (z : Z) : print z <> "".
Proof.
  pose proof (print_head z) as H. destruct (print z); [discriminate H | ].
  discriminate.
Qed.

Lemma head_differs (p : ascii -> bool) (s t : string) :
  head_is p s = true -> head_is p t = false -> String.eqb s t = false.
Proof.
  intros Hs Ht. apply String.eqb_neq. intros ->. congruence.
Qed.

(** A positive number is written without a leading zero. *)
Lemma to_uint_no_D0 (p : positive) (d : Decimal.uint) :
  Pos.to_uint p <> Decimal.D0 d.
Proof.
  intros E.
  assert (Hnorm : Decimal.unorm (Pos.to_uint p) = Pos.to_uint p).
  { rewrite <- (DecimalPos.Unsigned.to_of (Pos.to_uint p)).
    now rewrite DecimalPos.Unsigned.of_to. }
  rewrite E in Hnorm. unfold Decimal.unorm in Hnorm. simpl in Hnorm.
  pose proof (DecimalFacts.nb_digits_nzhead d) as Hlen.
  destruct (Decimal.nzhead d) eqn:Hd.
  - inversion Hnorm. subst.
    apply (DecimalPos.Unsigned.to_uint_nonzero p). exact E.
  - inversion Hnorm. subst. simpl in Hlen. lia.
  - discriminate Hnorm.
  - discriminate Hnorm.
  - discriminate Hnorm.
  - discriminate Hnorm.
  - discriminate Hnorm.
  - discriminate Hnorm.
  - discriminate Hnorm.
  - discriminate Hnorm.
  - discriminate Hnorm.
Qed.

Lemma print_no_leading_zero (z : Z) (c : ascii) (rest : string) :
  print z <> String "0" (String c rest).
Proof.
  unfold print. destruct z as [ | p | p]; simpl.
  - discriminate.
  - pose proof (to_uint_no_D0 p) as H.
    destruct (Pos.to_uint p); simpl; try discriminate.
    now destruct (H u).
  - discriminate.
Qed.

Lemma read_decimal_print (z : Z) : read_decimal (print z) = Some z.
Proof.
  unfold read_decimal, print.
  rewrite NilZero.isi.
  - simpl. now rewrite DecimalZ.of_to.
  - destruct z as [ | p | p]; simpl; try discriminate.
    intros E. inversion E as [E'].
    now apply (DecimalPos.Unsigned.to_uint_nonnil p).
  - destruct z as [ | p | p]; simpl; try discriminate.
    intros E. inversion E as [E'].
    now apply (DecimalPos.Unsigned.to_uint_nonnil p).
Qed.

Lemma resolve_int_print (ver : string) (z : Z) :
  resolve_int ver (print z) = Some z.
Proof.
  unfold resolve_int.
  pose proof (print_no_leading_zero z) as Hz.
  pose proof (read_decimal_print z) as Hr.
  destruct (print z) as [ | a [ | c rest]]; try exact Hr.
  destruct (Ascii.eqb_spec a "0") as [-> | Ha].
  - now destruct (Hz c rest).
  - exact Hr.
Qed.

Lemma resolve_plain_print (ver : string) (z : Z) :
  resolve_plain ver (print z) = NNum z.
Proof.
  unfold resolve_plain.
  pose proof (print_head z) as H.
  rewrite (head_differs numeric _ "" H eq_refl).
  rewrite (head_differs numeric _ "~" H eq_refl).
  rewrite (head_differs numeric _ "null" H eq_refl).
  rewrite (head_differs numeric _ "true" H eq_refl).
  rewrite (head_differs numeric _ "false" H eq_refl).
  simpl. now rewrite resolve_int_print.
Qed.

Lemma resolve_plain_str (ver s s' : string) :
  resolve_plain ver s = NStr s' -> s' = s.
Proof.
  unfold resolve_plain.
  destruct (String.eqb s "" || String.eqb s "~" || String.eqb s "null");
    [discriminate | ].
  destruct (String.eqb s "true"); [discriminate | ].
  destruct (String.eqb s "false"); [discriminate | ].
  destruct (resolve_int ver s); [discriminate | ].
  intros E. now inversion E.
Qed.

Lemma resolve_raw_of (ver : string) (n : node) :
  resolve ver (raw_of ver n) = n.
Proof.
  induction n as [ | b | z | s | items IH | pairs IH | ms IH | es IH | name]
    using node_ind.
  - reflexivity.
  - now destruct b.
  - simpl. apply resolve_plain_print.
  - simpl. unfold raw_of_string.
    destruct (resolve_plain ver s) eqn:E; try reflexivity.
    destruct (plain_word s); [ | reflexivity].
    simpl. rewrite E. f_equal. now apply (resolve_plain_str ver).
  - simpl. f_equal. rewrite map_map.
    rewrite <- (map_id items) at 2. apply map_ext_in.
    intros x Hx. rewrite Forall_forall in IH. now apply IH.
  - simpl. f_equal. rewrite map_map.
    rewrite <- (map_id pairs) at 2. apply map_ext_in.
    intros [k v] Hkv. rewrite Forall_forall in IH. simpl.
    f_equal. now apply (IH (k, v)).
  - simpl. f_equal. rewrite map_map.
    rewrite <- (map_id ms) at 2. apply map_ext_in.
    intros x Hx. rewrite Forall_forall in IH. now apply IH.
  - simpl. f_equal. rewrite map_map.
    rewrite <- (map_id es) at 2. apply map_ext_in.
    intros [k v] Hkv. rewrite Forall_forall in IH. simpl.
    destruct (IH (k, v) Hkv) as [Hk Hv]. simpl in Hk, Hv.
    now rewrite Hk, Hv.
  - reflexivity.
Qed.

(** The trees inside a tree the reference syntax reads are of the same
    kind. *)
Lemma Forall_core (P : node -> Prop) (items : list node) :
  forallb core items = true ->
  Forall (fun n => core n = true -> P n) items ->
  Forall P items.
Proof.
  intros Hc H. apply Forall_forall. intros n Hn.
  rewrite Forall_forall in H. apply (H n Hn).
  rewrite forallb_forall in Hc. now apply Hc.
Qed.

Lemma Forall_core_snd (P : node -> Prop) (pairs : list (string * node)) :
  forallb (fun kv => core (snd kv)) pairs = true ->
  Forall (fun kv => core (snd kv) = true -> P (snd kv)) pairs ->
  Forall (fun kv => P (snd kv)) pairs.
Proof.
  intros Hc H. apply Forall_forall. intros kv Hkv.
  rewrite Forall_forall in H. apply (H kv Hkv).
  rewrite forallb_forall in Hc. now apply (Hc kv).
Qed.

(** The tree of plain data is one the reference syntax reads. *)
Lemma createNode_core (v : value) :
  plain_data v = true -> core (createNode true v) = true.
Proof.
  induction v as [ | | b | n | s | items IH | props IH | ms IH | es IH]
    using value_ind; intros H; try reflexivity; try discriminate H.
  - change (createNode true (VArr items))
      with (NSeq (map (createNode true) items)).
    simpl in *. apply forallb_forall. intros n Hn.
    apply in_map_iff in Hn. destruct Hn as [x [<- Hx]].
    rewrite Forall_forall in IH. apply (IH x Hx).
    rewrite forallb_forall in H. now apply H.
  - rewrite createNode_VObj, createPairs_true.
    simpl in *. apply forallb_forall. intros kv Hkv.
    apply in_map_iff in Hkv. destruct Hkv as [x [<- Hx]].
    rewrite Forall_forall in IH. apply (IH x Hx).
    rewrite forallb_forall in H. now apply (H x).
Qed.

Lemma head_is_weaken (p q : ascii -> bool) (s : string) :
  (forall c, p c = true -> q c = true) ->
  head_is p s = true -> head_is q s = true.
Proof. intros Hpq. destruct s; simpl; [trivial | apply Hpq]. Qed.

Lemma numeric_plain (c : ascii) : numeric c = true -> plain_char c = true.
Proof.
  unfold numeric. intros H. apply orb_true_iff in H. destruct H as [H | H].
  - now apply digit_plain.
  - apply Ascii.eqb_eq in H. now subst.
Qed.

Lemma plain_scalar_start (c : ascii) :
  plain_char c = true -> scalar_start c = true.
Proof. unfold scalar_start. now intros ->. Qed.

Lemma scalar_start_opener (c : ascii) :
  scalar_start c = true -> opener c = true.
Proof. unfold scalar_start, opener. now intros ->. Qed.

Lemma plain_word_chars (s : string) :
  plain_word s = true ->
  s <> "" /\ all_chars plain_char s = true /\ head_is plain_char s = true
  /\ head_is (fun c => Ascii.eqb c "-") s = false.
Proof.
  destruct s as [ | c s]; simpl; [discriminate | ].
  intros H. apply andb_true_iff in H. destruct H as [Hd H].
  apply negb_true_iff in Hd.
  repeat split; try assumption; try discriminate.
  now apply andb_true_iff in H.
Qed.

Lemma key_text_head (k : string) : head_is scalar_start (key_text k) = true.
Proof.
  unfold key_text. destruct (plain_word k) eqn:E.
  - apply plain_word_chars in E. destruct E as [_ [_ [E _]]].
    apply (head_is_weaken plain_char); [exact plain_scalar_start | exact E].
  - reflexivity.
Qed.

Lemma scalar_text_head (ver s : string) :
  head_is scalar_start (scalar_text ver s) = true.
Proof.
  unfold scalar_text.
  destruct (resolve_plain ver s); try reflexivity.
  destruct (plain_word s) eqn:E; [ | reflexivity].
  apply plain_word_chars in E. destruct E as [_ [_ [E _]]].
  apply (head_is_weaken plain_char); [exact plain_scalar_start | exact E].
Qed.

Lemma flow_head (ver : string) (n : node) :
  core n = true -> head_is opener (flow ver n) = true.
Proof.
  destruct n as [ | [ | ] | z | s | items | pairs | ms | es | name];
    intros Hcore; try discriminate Hcore; try reflexivity.
  - apply (head_is_weaken numeric); [ | apply print_head].
    intros c Hc. apply scalar_start_opener, plain_scalar_start.
    now apply numeric_plain.
  - apply (head_is_weaken scalar_start); [exact scalar_start_opener | ].
    apply scalar_text_head.
Qed.

(** A scalar text is read by [parse_scalar] whatever the fuel. *)
Lemma parse_flow_scalar (fuel : nat) (text rest : string) (r : raw) :
  1 <= fuel ->
  head_is scalar_start text = true ->
  parse_scalar (text ++ rest) = Some (r, rest) ->
  parse_flow fuel (text ++ rest) = Some (r, rest).
Proof.
  intros Hfuel Hhead Hparse.
  destruct fuel as [ | fuel]; [lia | ].
  apply (head_is_app _ _ rest) in Hhead.
  simpl.
  rewrite (starts_with_head scalar_start "[" _ eq_refl Hhead).
  rewrite (starts_with_head scalar_start "{" _ eq_refl Hhead).
  exact Hparse.
Qed.

Lemma parse_scalar_word (w rest : string) :
  plain_word w = true -> stops rest = true ->
  parse_scalar (w ++ rest) = Some (RPlain w, rest).
Proof.
  intros Hw Hrest. apply plain_word_chars in Hw.
  destruct Hw as [Hne [Hall _]]. now apply parse_scalar_plain.
Qed.

Lemma parse_scalar_text (ver s rest : string) :
  stops rest = true ->
  parse_scalar (scalar_text ver s ++ rest) = Some (raw_of_string ver s, rest).
Proof.
  intros Hrest. unfold scalar_text, raw_of_string.
  destruct (resolve_plain ver s); try apply parse_scalar_quoted.
  destruct (plain_word s) eqn:E; [ | apply parse_scalar_quoted].
  now apply parse_scalar_word.
Qed.

Lemma parse_scalar_key (k rest : string) :
  exists r,
    parse_scalar (key_text k ++ String ":" rest) = Some (r, String ":" rest)
    /\ scalar_key r = Some k.
Proof.
  unfold key_text. destruct (plain_word k) eqn:E.
  - exists (RPlain k). split; [ | reflexivity].
    now apply parse_scalar_word.
  - exists (RQuoted k). split; [ | reflexivity].
    apply parse_scalar_quoted.
Qed.

Lemma parse_scalar_print (z : Z) (rest : string) :
  stops rest = true ->
  parse_scalar (print z ++ rest) = Some (RPlain (print z), rest).
Proof.
  intros Hrest. apply parse_scalar_plain.
  - apply print_nonempty.
  - apply print_plain.
  - exact Hrest.
Qed.

Lemma parse_flow_S (fuel : nat) (s : string) :
  parse_flow (S fuel) s
  = match starts_with "[" s, starts_with "{" s with
    | Some rest, _ =>
        match starts_with "]" (skip_spaces rest) with
        | Some r => Some (RSeq [], r)
        | None =>
            match parse_items fuel (skip_spaces rest) with
            | Some (vs, r') => Some (RSeq vs, r')
            | None => None
            end
        end
    | None, Some rest =>
        match starts_with "}" (skip_spaces rest) with
        | Some r => Some (RMap [], r)
        | None =>
            match parse_entries fuel (skip_spaces rest) with
            | Some (kvs, r') => Some (RMap kvs, r')
            | None => None
            end
        end
    | None, None => parse_scalar s
    end.
Proof. reflexivity. Qed.

Lemma parse_items_S (fuel : nat) (s : string) :
  parse_items (S fuel) s
  = match parse_flow fuel s with
    | Some (v, r) =>
        match starts_with "]" (skip_spaces r),
              starts_with "," (skip_spaces r) with
        | Some r', _ => Some ([v], r')
        | None, Some r' =>
            match parse_items fuel (skip_spaces r') with
            | Some (vs, r'') => Some (v :: vs, r'')
            | None => None
            end
        | None, None => None
        end
    | None => None
    end.
Proof. reflexivity. Qed.

Lemma parse_entries_S (fuel : nat) (s : string) :
  parse_entries (S fuel) s
  = match parse_scalar s with
    | Some (k, r) =>
        match scalar_key k, starts_with ":" r with
        | Some key, Some r0 =>
            match parse_flow fuel (skip_spaces r0) with
            | Some (v, r1) =>
                match starts_with "}" (skip_spaces r1),
                      starts_with "," (skip_spaces r1) with
                | Some r', _ => Some ([(key, v)], r')
                | None, Some r' =>
                    match parse_entries fuel (skip_spaces r') with
                    | Some (kvs, r'') => Some ((key, v) :: kvs, r'')
                    | None => None
                    end
                | None, None => None
                end
            | None => None
            end
        | _, _ => None
        end
    | None => None
    end.
Proof. reflexivity. Qed.

Lemma flow_NSeq (ver : string) (items : list node) :
  flow ver (NSeq items)
  = String "[" (commas (map (flow ver) items) ++ "]").
Proof. reflexivity. Qed.

Lemma flow_NMap (ver : string) (pairs : list (string * node)) :
  flow ver (NMap pairs)
  = String "{" (commas (map (entry_text ver) pairs) ++ "}").
Proof. reflexivity. Qed.

Lemma commas_cons2 (x y : string) (l : list string) :
  commas (x :: y :: l) = x ++ ", " ++ commas (y :: l).
Proof. reflexivity. Qed.

Lemma commas_head (p : ascii -> bool) (x : string) (l : list string) :
  head_is p x = true -> head_is p (commas (x :: l)) = true.
Proof.
  intros H. destruct l as [ | y l]; [exact H | ].
  rewrite commas_cons2. now apply head_is_app.
Qed.

Lemma skip_spaces_opener (s : string) :
  head_is opener s = true -> skip_spaces s = s.
Proof. apply skip_spaces_head. reflexivity. Qed.

Lemma parse_items_flow (ver : string) (items : list node) :
  Forall (reads ver) items ->
  items <> [] ->
  forall fuel rest,
    2 * String.length (commas (map (flow ver) items) ++ String "]" rest) + 2
    <= fuel ->
    parse_items fuel (commas (map (flow ver) items) ++ String "]" rest)
    = Some (map (raw_of ver) items, rest).
Proof.
  induction 1 as [ | x xs [_ Hx] Hxs IH]; [contradiction | ].
  intros _ fuel rest Hfuel.
  destruct fuel as [ | fuel]; [lia | ].
  rewrite parse_items_S.
  destruct xs as [ | y ys].
  - change (commas (map (flow ver) [x])) with (flow ver x) in *.
    rewrite (Hx fuel (String "]" rest) eq_refl) by lia.
    reflexivity.
  - change (map (flow ver) (x :: y :: ys))
      with (flow ver x :: flow ver y :: map (flow ver) ys) in *.
    rewrite commas_cons2 in *.
    set (Y := commas (flow ver y :: map (flow ver) ys) ++ String "]" rest)
      in *.
    assert (E : (flow ver x ++ ", " ++ commas (flow ver y :: map (flow ver) ys))
                ++ String "]" rest
                = flow ver x ++ String "," (String " " Y)).
    { rewrite append_assoc. reflexivity. }
    rewrite E in *. clear E.
    rewrite length_append in Hfuel. simpl String.length in Hfuel.
    rewrite (Hx fuel (String "," (String " " Y)) eq_refl)
      by (rewrite length_append; simpl String.length; lia).
    assert (HY : head_is opener Y = true).
    { unfold Y. apply head_is_app, commas_head.
      exact (proj1 (Forall_inv Hxs)). }
    change (skip_spaces (String "," (String " " Y)))
      with (String "," (String " " Y)).
    change (starts_with "]" (String "," (String " " Y))) with (@None string).
    change (starts_with "," (String "," (String " " Y)))
      with (Some (String " " Y)).
    cbv iota.
    change (skip_spaces (String " " Y)) with (skip_spaces Y).
    rewrite (skip_spaces_opener Y HY).
    assert (HfY : 2 * String.length Y + 2 <= fuel) by lia.
    unfold Y in *. rewrite IH; [reflexivity | discriminate | exact HfY].
Qed.

Lemma entry_text_head (ver : string) (kv : string * node) :
  head_is opener (entry_text ver kv) = true.
Proof.
  unfold entry_text. apply head_is_app.
  apply (head_is_weaken scalar_start); [exact scalar_start_opener | ].
  apply key_text_head.
Qed.

Lemma entry_text_app (ver : string) (kv : string * node) (tail : string) :
  entry_text ver kv ++ tail
  = key_text (fst kv) ++ String ":" (String " " (flow ver (snd kv) ++ tail)).
Proof. unfold entry_text. rewrite !append_assoc. reflexivity. Qed.

Lemma parse_entries_flow (ver : string) (pairs : list (string * node)) :
  Forall (fun kv => reads ver (snd kv)) pairs ->
  pairs <> [] ->
  forall fuel rest,
    2 * String.length (commas (map (entry_text ver) pairs) ++ String "}" rest)
    + 2 <= fuel ->
    parse_entries fuel (commas (map (entry_text ver) pairs) ++ String "}" rest)
    = Some (map (raw_entry ver) pairs, rest).
Proof.
  induction 1 as [ | x xs [Hhx Hx] Hxs IH]; [contradiction | ].
  intros _ fuel rest Hfuel.
  destruct fuel as [ | fuel]; [lia | ].
  rewrite parse_entries_S.
  destruct xs as [ | y ys].
  - change (commas (map (entry_text ver) [x])) with (entry_text ver x) in *.
    rewrite entry_text_app in *.
    set (Z := flow ver (snd x) ++ String "}" rest) in *.
    destruct (parse_scalar_key (fst x) (String " " Z)) as [r [Hr Hk]].
    rewrite Hr, Hk.
    change (starts_with ":" (String ":" (String " " Z)))
      with (Some (String " " Z)).
    cbv iota.
    change (skip_spaces (String " " Z)) with (skip_spaces Z).
    assert (HZ : head_is opener Z = true)
      by (unfold Z; apply head_is_app; exact Hhx).
    rewrite (skip_spaces_opener Z HZ).
    rewrite length_append in Hfuel. simpl String.length in Hfuel.
    unfold Z in *.
    rewrite (Hx fuel (String "}" rest) eq_refl) by lia.
    reflexivity.
  - change (map (entry_text ver) (x :: y :: ys))
      with (entry_text ver x :: entry_text ver y :: map (entry_text ver) ys)
      in *.
    rewrite commas_cons2 in *.
    set (Y := commas (entry_text ver y :: map (entry_text ver) ys)
              ++ String "}" rest) in *.
    assert (E : (entry_text ver x ++ ", "
                 ++ commas (entry_text ver y :: map (entry_text ver) ys))
                ++ String "}" rest
                = entry_text ver x ++ String "," (String " " Y)).
    { rewrite append_assoc. reflexivity. }
    rewrite E in *. clear E.
    rewrite entry_text_app in *.
    set (Z := flow ver (snd x) ++ String "," (String " " Y)) in *.
    destruct (parse_scalar_key (fst x) (String " " Z)) as [r [Hr Hk]].
    rewrite Hr, Hk.
    change (starts_with ":" (String ":" (String " " Z)))
      with (Some (String " " Z)).
    cbv iota.
    change (skip_spaces (String " " Z)) with (skip_spaces Z).
    assert (HZ : head_is opener Z = true)
      by (unfold Z; apply head_is_app; exact Hhx).
    rewrite (skip_spaces_opener Z HZ).
    rewrite length_append in Hfuel. simpl String.length in Hfuel.
    assert (HlenZ : String.length Z
                    = String.length (flow ver (snd x)) + S (S (String.length Y))).
    { unfold Z. rewrite length_append. reflexivity. }
    unfold Z.
    rewrite (Hx fuel (String "," (String " " Y)) eq_refl)
      by (fold Z; lia).
    assert (HY : head_is opener Y = true).
    { unfold Y. apply head_is_app, commas_head, entry_text_head. }
    change (skip_spaces (String "," (String " " Y)))
      with (String "," (String " " Y)).
    change (starts_with "}" (String "," (String " " Y))) with (@None string).
    change (starts_with "," (String "," (String " " Y)))
      with (Some (String " " Y)).
    cbv iota.
    change (skip_spaces (String " " Y)) with (skip_spaces Y).
    rewrite (skip_spaces_opener Y HY).
    assert (HfY : 2 * String.length Y + 2 <= fuel) by lia.
    unfold Y in *. rewrite IH; [reflexivity | discriminate | exact HfY].
Qed.

(** Every tree of mappings, sequences and scalars is read back from its
    flow text. *)
Lemma flow_reads (ver : string) (n : node) : core n = true -> reads ver n.
Proof.
  induction n as [ | b | z | s | items IH | pairs IH | ms IH | es IH | name]
    using node_ind; intros Hc; try discriminate Hc;
    (split; [now apply flow_head | ]);
    intros fuel rest Hrest Hfuel.
  - apply parse_flow_scalar; [lia | reflexivity | ].
    now apply (parse_scalar_plain "null").
  - destruct b.
    + apply parse_flow_scalar; [lia | reflexivity | ].
      now apply (parse_scalar_plain "true").
    + apply parse_flow_scalar; [lia | reflexivity | ].
      now apply (parse_scalar_plain "false").
  - apply parse_flow_scalar; [lia | | ].
    + apply (head_is_weaken numeric); [ | apply print_head].
      intros c Hnum. now apply plain_scalar_start, numeric_plain.
    + now apply parse_scalar_print.
  - apply parse_flow_scalar; [lia | apply scalar_text_head | ].
    now apply parse_scalar_text.
  - pose proof (Forall_core _ _ Hc IH) as IH'.
    rewrite flow_NSeq in *.
    destruct fuel as [ | fuel]; [lia | ].
    rewrite parse_flow_S.
    change (String "[" (commas (map (flow ver) items) ++ "]") ++ rest)
      with (String "[" ((commas (map (flow ver) items) ++ "]") ++ rest)) in *.
    rewrite append_assoc in *.
    change ("]" ++ rest) with (String "]" rest) in *.
    change (starts_with "[" (String "[" ?X)) with (Some X).
    simpl String.length in Hfuel.
    destruct items as [ | x xs].
    + reflexivity.
    + set (X := commas (map (flow ver) (x :: xs)) ++ String "]" rest) in *.
      assert (HX : head_is opener X = true).
      { unfold X. apply head_is_app. apply commas_head.
        exact (proj1 (Forall_inv IH')). }
      cbv iota beta.
      rewrite (skip_spaces_opener X HX).
      rewrite (starts_with_head opener "]" X eq_refl HX).
      unfold X in *.
      rewrite (parse_items_flow ver (x :: xs) IH'); [reflexivity | | lia].
      discriminate.
  - pose proof (Forall_core_snd _ _ Hc IH) as IH'.
    rewrite flow_NMap in *.
    destruct fuel as [ | fuel]; [lia | ].
    rewrite parse_flow_S.
    change (String "{" (commas (map (entry_text ver) pairs) ++ "}") ++ rest)
      with (String "{" ((commas (map (entry_text ver) pairs) ++ "}") ++ rest))
      in *.
    rewrite append_assoc in *.
    change ("}" ++ rest) with (String "}" rest) in *.
    simpl String.length in Hfuel.
    destruct pairs as [ | x xs].
    + reflexivity.
    + set (X := commas (map (entry_text ver) (x :: xs)) ++ String "}" rest)
        in *.
      assert (HX : head_is opener X = true).
      { unfold X. apply head_is_app. apply commas_head, entry_text_head. }
      change (starts_with "[" (String "{" X)) with (@None string).
      change (starts_with "{" (String "{" X)) with (Some X).
      cbv iota beta.
      rewrite (skip_spaces_opener X HX).
      rewrite (starts_with_head opener "}" X eq_refl HX).
      unfold X in *.
      rewrite (parse_entries_flow ver (x :: xs) IH'); [reflexivity | | lia].
      discriminate.
Qed.

(** *** No line feed inside a rendered line *)

Lemma has_lf_app (a b : string) : has_lf (a ++ b) = has_lf a || has_lf b.
Proof.
  induction a as [ | c a IH]; simpl; [reflexivity | ].
  now rewrite IH, orb_assoc.
Qed.

Lemma plain_no_lf (s : string) :
  all_chars plain_char s = true -> has_lf s = false.
Proof.
  induction s as [ | c s IH]; simpl; [reflexivity | ].
  intros H. apply andb_true_iff in H. destruct H as [Hc Hs].
  rewrite (eqb_by plain_char c LF Hc eq_refl). now rewrite (IH Hs).
Qed.

Lemma escape_no_lf (s : string) : has_lf (escape s) = false.
Proof.
  induction s as [ | c s IH]; simpl; [reflexivity | ].
  destruct (Ascii.eqb c DQ); [exact IH | ].
  destruct (Ascii.eqb c BS); [exact IH | ].
  destruct (Ascii.eqb c LF) eqn:E; [exact IH | ].
  simpl. now rewrite E.
Qed.

Lemma quoted_no_lf (s : string) : has_lf (quoted s) = false.
Proof.
  unfold quoted. simpl. rewrite has_lf_app, escape_no_lf. reflexivity.
Qed.

Lemma key_text_no_lf (k : string) : has_lf (key_text k) = false.
Proof.
  unfold key_text. destruct (plain_word k) eqn:E.
  - apply plain_no_lf. now apply plain_word_chars in E.
  - apply quoted_no_lf.
Qed.

Lemma scalar_text_no_lf (ver s : string) : has_lf (scalar_text ver s) = false.
Proof.
  unfold scalar_text.
  destruct (resolve_plain ver s); try apply quoted_no_lf.
  destruct (plain_word s) eqn:E; [ | apply quoted_no_lf].
  apply plain_no_lf. now apply plain_word_chars in E.
Qed.

Lemma commas_no_lf (xs : list string) :
  Forall is_line xs -> has_lf (commas xs) = false.
Proof.
  induction 1 as [ | x xs Hx Hxs IH]; [reflexivity | ].
  destruct xs as [ | y ys]; [exact Hx | ].
  rewrite commas_cons2, !has_lf_app, Hx, IH. reflexivity.
Qed.

Lemma flow_no_lf (ver : string) (n : node) :
  core n = true -> is_line (flow ver n).
Proof.
  unfold is_line.
  induction n as [ | b | z | s | items IH | pairs IH | ms IH | es IH | name]
    using node_ind; intros Hc; try discriminate Hc.
  - reflexivity.
  - now destruct b.
  - apply plain_no_lf, print_plain.
  - apply scalar_text_no_lf.
  - pose proof (Forall_core _ _ Hc IH) as IH'.
    rewrite flow_NSeq. simpl. rewrite has_lf_app, commas_no_lf; [reflexivity | ].
    apply Forall_forall. intros t Ht. apply in_map_iff in Ht.
    destruct Ht as [x [<- Hx]]. rewrite Forall_forall in IH'. now apply IH'.
  - pose proof (Forall_core_snd (fun n => has_lf (flow ver n) = false)
                  _ Hc IH) as IH'.
    rewrite flow_NMap. simpl. rewrite has_lf_app, commas_no_lf; [reflexivity | ].
    apply Forall_forall. intros t Ht. apply in_map_iff in Ht.
    destruct Ht as [kv [<- Hkv]]. rewrite Forall_forall in IH'.
    unfold is_line, entry_text. rewrite !has_lf_app, key_text_no_lf.
    simpl. now apply IH'.
Qed.

Lemma entry_text_no_lf (ver : string) (kv : string * node) :
  core (snd kv) = true -> is_line (entry_text ver kv).
Proof.
  intros Hc. unfold is_line, entry_text. rewrite !has_lf_app, key_text_no_lf.
  simpl. now apply flow_no_lf.
Qed.

(** *** One line at a time *)

Lemma flow_nonempty (ver : string) (n : node) :
  core n = true -> flow ver n <> "".
Proof.
  intros Hc. pose proof (flow_head ver n Hc) as H.
  intros E. now rewrite E in H.
Qed.

Lemma parse_value_line_flow (ver : string) (n : node) :
  core n = true -> parse_value_line (flow ver n) = Some (raw_of ver n).
Proof.
  intros Hc. unfold parse_value_line.
  rewrite (skip_spaces_opener _ (flow_head ver n Hc)).
  pose proof (flow_nonempty ver n Hc) as Hne.
  pose proof (proj2 (flow_reads ver n Hc) (fuel_for (flow ver n)) "" eq_refl)
    as H.
  rewrite append_nil_r in H.
  destruct (flow ver n) as [ | c t] eqn:E; [contradiction | ].
  rewrite H; [reflexivity | unfold fuel_for; lia].
Qed.

Lemma parse_value_line_space (ver : string) (n : node) :
  core n = true ->
  parse_value_line (String " " (flow ver n)) = Some (raw_of ver n).
Proof.
  intros Hc. pose proof (parse_value_line_flow ver n Hc) as H.
  unfold parse_value_line in *.
  change (skip_spaces (String " " (flow ver n)))
    with (skip_spaces (flow ver n)).
  exact H.
Qed.

Lemma parse_item_line_item (ver : string) (n : node) :
  core n = true ->
  parse_item_line (item_text ver n) = Some (raw_of ver n).
Proof.
  intros Hc. unfold parse_item_line, item_text. simpl.
  now apply parse_value_line_flow.
Qed.

Lemma parse_entry_line_entry (ver : string) (kv : string * node) :
  core (snd kv) = true ->
  parse_entry_line (entry_text ver kv) = Some (raw_entry ver kv).
Proof.
  intros Hc. unfold parse_entry_line.
  rewrite <- (append_nil_r (entry_text ver kv)), entry_text_app.
  rewrite append_nil_r.
  destruct (parse_scalar_key (fst kv) (String " " (flow ver (snd kv))))
    as [r [Hr Hk]].
  rewrite Hr, Hk.
  change (starts_with ":" (String ":" (String " " (flow ver (snd kv)))))
    with (Some (String " " (flow ver (snd kv)))).
  cbv iota. now rewrite parse_value_line_space.
Qed.

Lemma all_some_map {A B C : Type} (f : B -> option C) (g : A -> B)
    (h : A -> C) (l : list A) :
  (forall a, In a l -> f (g a) = Some (h a)) ->
  all_some f (map g l) = Some (map h l).
Proof.
  induction l as [ | a l IH]; intros H; simpl; [reflexivity | ].
  rewrite (H a (or_introl eq_refl)), IH; [reflexivity | ].
  intros x Hx. apply H. now right.
Qed.

Lemma plain_word_start (s : string) :
  plain_word s = true -> head_is word_start s = true.
Proof.
  destruct s as [ | c s]; simpl; [discriminate | ].
  intros H. apply andb_true_iff in H. destruct H as [Hd H].
  apply andb_true_iff in H. destruct H as [Hc _].
  unfold word_start. now rewrite Hc, Hd.
Qed.

Lemma key_text_start (k : string) : head_is word_start (key_text k) = true.
Proof.
  unfold key_text. destruct (plain_word k) eqn:E.
  - now apply plain_word_start.
  - reflexivity.
Qed.

Lemma scalar_text_start (ver s : string) :
  head_is word_start (scalar_text ver s) = true.
Proof.
  unfold scalar_text.
  destruct (resolve_plain ver s); try reflexivity.
  destruct (plain_word s) eqn:E; [ | reflexivity].
  now apply plain_word_start.
Qed.

Lemma entry_text_start (ver : string) (kv : string * node) :
  head_is word_start (entry_text ver kv) = true.
Proof. unfold entry_text. apply head_is_app, key_text_start. Qed.

Lemma item_mark_head (p : ascii -> bool) (s : string) :
  p "-"%char = false -> head_is p s = true -> item_mark s = false.
Proof.
  intros Hp Hs. unfold item_mark.
  now rewrite (starts_with_head p "-" s Hp Hs).
Qed.

Lemma uint_head_digit (d : Decimal.uint) :
  head_is digit (NilZero.string_of_uint d) = true.
Proof.
  pose proof (digits_of_uint_zero d) as H.
  pose proof (uint_nonempty d) as Hne.
  destruct (NilZero.string_of_uint d) as [ | c s]; [contradiction | ].
  simpl in *. now apply andb_true_iff in H.
Qed.

(** A number is a dash in front of digits, or digits. *)
Lemma print_shape (z : Z) :
  head_is digit (print z) = true
  \/ exists s, print z = String "-" s /\ head_is digit s = true.
Proof.
  unfold print. destruct (Z.to_int z) as [d | d]; simpl.
  - left. apply uint_head_digit.
  - right. eexists. split; [reflexivity | apply uint_head_digit].
Qed.

Lemma print_not_item (z : Z) : item_mark (print z) = false.
Proof.
  destruct (print_shape z) as [H | [s [-> H]]].
  - now apply (item_mark_head digit).
  - unfold item_mark. simpl.
    now rewrite (starts_with_head digit " " s eq_refl H).
Qed.

Lemma print_not_separator (z : Z) : String.eqb (print z) "---" = false.
Proof.
  destruct (print_shape z) as [H | [s [-> H]]].
  - now apply (head_differs digit).
  - simpl. now apply (head_differs digit).
Qed.

Lemma flow_not_item (ver : string) (n : node) :
  item_mark (flow ver n) = false.
Proof.
  destruct n as [ | [ | ] | z | s | items | pairs | ms | es | name];
    try reflexivity.
  - apply print_not_item.
  - apply (item_mark_head word_start); [reflexivity | ].
    apply scalar_text_start.
Qed.

Lemma flow_not_separator (ver : string) (n : node) :
  String.eqb (flow ver n) "---" = false.
Proof.
  destruct n as [ | [ | ] | z | s | items | pairs | ms | es | name];
    try reflexivity.
  - apply print_not_separator.
  - apply (head_differs word_start); [ | reflexivity].
    apply scalar_text_start.
Qed.

Lemma parse_item_line_unmarked (s : string) :
  item_mark s = false -> parse_item_line s = None.
Proof.
  unfold item_mark, parse_item_line.
  destruct (starts_with "-" s) as [r | ]; [ | reflexivity].
  destruct (starts_with " " r); [discriminate | reflexivity].
Qed.

Lemma parse_entry_line_scalar (text : string) (r : raw) :
  parse_scalar (text ++ "") = Some (r, "") -> parse_entry_line text = None.
Proof.
  rewrite append_nil_r. unfold parse_entry_line. intros ->.
  now destruct (scalar_key r).
Qed.

Lemma parse_entry_line_flow (ver : string) (n : node) :
  parse_entry_line (flow ver n) = None.
Proof.
  destruct n as [ | [ | ] | z | s | items | pairs | ms | es | name];
    try reflexivity.
  - apply (parse_entry_line_scalar _ (RPlain (print z))).
    now apply parse_scalar_print.
  - apply (parse_entry_line_scalar _ (raw_of_string ver s)).
    now apply parse_scalar_text.
Qed.

Lemma opener_visible (c : ascii) : opener c = true -> is_space c = false.
Proof.
  intros H. unfold is_space.
  rewrite (eqb_by opener c " " H eq_refl).
  rewrite (eqb_by opener c LF H eq_refl).
  rewrite (eqb_by opener c (ascii_of_nat 9) H eq_refl).
  now rewrite (eqb_by opener c (ascii_of_nat 13) H eq_refl).
Qed.

Lemma opener_not_blank (s : string) :
  head_is opener s = true -> is_blank s = false.
Proof.
  destruct s as [ | c s]; simpl; [discriminate | ].
  intros H. now rewrite (opener_visible c H).
Qed.

Lemma render_document_lines (opts : YAML.ToString.options) (n : node) :
  render_document opts n = unlines (top_lines (YAML.ToString.version opts) n).
Proof.
  destruct n as [ | b | z | s | [ | x xs] | [ | p ps] | ms | es | name];
    reflexivity.
Qed.

Lemma item_text_no_lf (ver : string) (n : node) :
  core n = true -> is_line (item_text ver n).
Proof. intros Hc. unfold is_line, item_text. simpl. now apply flow_no_lf. Qed.

Lemma flow_content (ver : string) (n : node) :
  core n = true -> content_line (flow ver n).
Proof.
  intros Hc. repeat split.
  - now apply flow_no_lf.
  - apply flow_not_separator.
  - now apply opener_not_blank, flow_head.
Qed.

Lemma entry_content (ver : string) (kv : string * node) :
  core (snd kv) = true -> content_line (entry_text ver kv).
Proof.
  intros Hc. repeat split.
  - now apply entry_text_no_lf.
  - apply (head_differs word_start); [apply entry_text_start | reflexivity].
  - apply opener_not_blank, entry_text_head.
Qed.

Lemma item_content (ver : string) (n : node) :
  core n = true -> content_line (item_text ver n).
Proof.
  intros Hc. repeat split.
  - now apply item_text_no_lf.
Qed.

Lemma Forall_map_in {A B : Type} (P : B -> Prop) (f : A -> B) (l : list A) :
  (forall a, In a l -> P (f a)) -> Forall P (map f l).
Proof.
  intros H. apply Forall_forall. intros b Hb.
  apply in_map_iff in Hb. destruct Hb as [a [<- Ha]]. now apply H.
Qed.

Lemma top_lines_content (ver : string) (n : node) :
  core n = true ->
  top_lines ver n <> [] /\ Forall content_line (top_lines ver n).
Proof.
  intros Hc.
  assert (Hscalar : Forall content_line [flow ver n])
    by (constructor; [now apply flow_content | constructor]).
  destruct n as [ | b | z | s | [ | x xs] | [ | p ps] | ms | es | name];
    try discriminate Hc;
    (split; [discriminate | ]); try exact Hscalar.
  - apply Forall_map_in. intros a Ha. apply item_content.
    change (forallb core (x :: xs) = true) in Hc.
    rewrite forallb_forall in Hc. now apply Hc.
  - apply Forall_map_in. intros a Ha. apply entry_content.
    change (forallb (fun kv => core (snd kv)) (p :: ps) = true) in Hc.
    rewrite forallb_forall in Hc. now apply (Hc a).
Qed.

Lemma parse_lines_cons (l : string) (rest : list string) :
  parse_lines (l :: rest)
  = match parse_item_line l with
    | Some _ =>
        match all_some parse_item_line (l :: rest) with
        | Some vs => inr (RSeq vs)
        | None => inl "bad sequence entry"
        end
    | None =>
        match parse_entry_line l with
        | Some _ =>
            match all_some parse_entry_line (l :: rest) with
            | Some kvs => inr (RMap kvs)
            | None => inl "bad mapping entry"
            end
        | None =>
            match parse_value_line l, rest with
            | Some v, [] => inr v
            | _, _ => inl "unexpected content"
            end
        end
    end.
Proof. reflexivity. Qed.

Lemma parse_lines_top (ver : string) (n : node) :
  core n = true -> parse_lines (top_lines ver n) = inr (raw_of ver n).
Proof.
  intros Hc.
  assert (Hscalar : parse_lines [flow ver n] = inr (raw_of ver n)).
  { rewrite parse_lines_cons.
    rewrite (parse_item_line_unmarked _ (flow_not_item ver n)).
    rewrite parse_entry_line_flow, (parse_value_line_flow ver n Hc).
    reflexivity. }
  destruct n as [ | b | z | s | [ | x xs] | [ | p ps] | ms | es | name];
    try discriminate Hc; try exact Hscalar.
  - assert (Hall : forall a, In a (x :: xs) -> core a = true).
    { change (forallb core (x :: xs) = true) in Hc.
      rewrite forallb_forall in Hc. exact Hc. }
    unfold top_lines.
    change (map (item_text ver) (x :: xs))
      with (item_text ver x :: map (item_text ver) xs).
    rewrite parse_lines_cons.
    rewrite (parse_item_line_item ver x (Hall x (or_introl eq_refl))).
    change (item_text ver x :: map (item_text ver) xs)
      with (map (item_text ver) (x :: xs)).
    rewrite (all_some_map _ _ (raw_of ver)); [reflexivity | ].
    intros a Ha. now apply parse_item_line_item, Hall.
  - assert (Hall : forall a, In a (p :: ps) -> core (snd a) = true).
    { change (forallb (fun kv => core (snd kv)) (p :: ps) = true) in Hc.
      rewrite forallb_forall in Hc. exact Hc. }
    unfold top_lines.
    change (map (entry_text ver) (p :: ps))
      with (entry_text ver p :: map (entry_text ver) ps).
    rewrite parse_lines_cons.
    rewrite (parse_item_line_unmarked (entry_text ver p)).
    + rewrite (parse_entry_line_entry ver p (Hall p (or_introl eq_refl))).
      change (entry_text ver p :: map (entry_text ver) ps)
        with (map (entry_text ver) (p :: ps)).
      rewrite (all_some_map _ _ (raw_entry ver)); [reflexivity | ].
      intros a Ha. now apply parse_entry_line_entry, Hall.
    + apply (item_mark_head word_start); [reflexivity | ].
      apply entry_text_start.
Qed.

Lemma unlines_not_blank (l : string) (ls : list string) :
  is_blank l = false -> is_blank (unlines (l :: ls)) = false.
Proof.
  intros H. change (unlines (l :: ls)) with (l ++ nl ++ unlines ls).
  destruct l as [ | c l]; [discriminate H | ].
  simpl in *. apply andb_false_iff in H. apply andb_false_iff.
  destruct H as [H | H]; [now left | right].
  clear c. induction l as [ | d l IH]; [discriminate H | ].
  simpl in *. apply andb_false_iff in H. apply andb_false_iff.
  destruct H as [H | H]; [now left | right; now apply IH].
Qed.

Lemma unlines_nonempty (l : string) (ls : list string) :
  String.eqb (unlines (l :: ls)) "" = false.
Proof.
  change (unlines (l :: ls)) with (l ++ nl ++ unlines ls).
  now destruct l.
Qed.

(** Lines of content, written out, are well framed and read back as
    themselves. *)
Lemma content_lines_framed (ls : list string) :
  ls <> [] -> Forall content_line ls ->
  well_framed (unlines ls) = true
  /\ is_blank (unlines ls) = false
  /\ filter (fun l => negb (is_blank l)) (lines (unlines ls)) = ls.
Proof.
  intros Hne H.
  assert (Hlines : lines (unlines ls) = ls).
  { apply lines_unlines. apply Forall_forall. intros l Hl.
    rewrite Forall_forall in H. now destruct (H l Hl). }
  destruct ls as [ | l ls]; [contradiction | ].
  split; [ | split].
  - unfold well_framed. rewrite Hlines, unlines_nonempty, String.eqb_refl.
    cbn [negb andb]. apply forallb_forall. intros x Hx.
    rewrite Forall_forall in H. destruct (H x Hx) as [_ [Hsep _]].
    now rewrite Hsep.
  - apply unlines_not_blank. inversion H as [ | ? ? Hl _]. subst.
    now destruct Hl as [_ [_ Hl]].
  - rewrite Hlines. apply filter_all. apply Forall_forall. intros x Hx.
    rewrite Forall_forall in H. destruct (H x Hx) as [_ [_ Hb]].
    now rewrite Hb.
Qed.

(** The reference syntax is faithful on every tree of mappings,
    sequences and scalars, under any options. *)
Lemma reference_faithful (opts : YAML.ToString.options) (n : node) :
  core n = true -> faithful Reference.syntax opts n.
Proof.
  intros Hc. unfold faithful. simpl render.
  rewrite render_document_lines.
  set (ver := YAML.ToString.version opts).
  destruct (top_lines_content ver n Hc) as [Hne Hall].
  destruct (content_lines_framed _ Hne Hall) as [Hframed [Hblank Hfilter]].
  split; [exact Hframed | ].
  unfold parseDocument. rewrite Hblank.
  simpl parse. unfold parse_document. rewrite Hfilter.
  rewrite (parse_lines_top ver n Hc), resolve_raw_of. reflexivity.
Qed.

(** With the reference syntax the round trip holds for every document
    set of plain data without empty documents. *)
Corollary reference_roundtrip (D : list value) :
  Forall (fun d => plain_data d = true /\ classified_empty d = false) D ->
  @Yaml.load_body sample_library (@Yaml.stringify sample_library D) = Ok D.
Proof.
  intros H. unfold sample_library.
  rewrite (load_body_stringify Reference.syntax D).
  - f_equal. apply filter_documents, H.
  - apply Forall_forall. intros d Hd _. apply reference_faithful.
    apply createNode_core. rewrite Forall_forall in H.
    now destruct (H d Hd).
Qed.

End ReferenceFacts.

(** ** The statements at concrete inputs *)

Example stringify_sample :
  @Yaml.stringify sample_library [VUndefined; VObj [("a", VNum 1)]]
  = nl ++ "---" ++ nl ++ "a: 1" ++ nl.
Proof. reflexivity. Qed.

Example load_sample_stream :
  @Yaml.load_body sample_library sample_stream
  = Ok [VObj [("a", VNum 1)]; VNum 0].
Proof. vm_compute. reflexivity. Qed.

(** Under the later schema version the same literal is the decimal
    number. *)
Example decimal_under_schema_1_2 :
  resolve_plain "1.2" "0775" = NNum 775
  /\ resolve_plain "1.1" "0775" = NNum 509.
Proof. split; reflexivity. Qed.

(** Without [keepUndefined] the property would be left out. *)
Example undefined_property_dropped_otherwise :
  createNode false (VObj sample_props) = NMap [("b", NNum 2)]
  /\ createNode (YAML.ToString.keepUndefined Yaml.stringify_options)
       (VObj sample_props)
     = NMap [("a", NNull); ("b", NNum 2)].
Proof. split; reflexivity. Qed.

(** A plain scalar that reads [---] would break the framing; the
    reference syntax quotes it. *)
Example separator_text_not_framed :
  well_framed ("---" ++ nl) = false
  /\ well_framed (@YAML.stringify sample_library (VStr "---")
                    Yaml.stringify_options) = true.
Proof. split; reflexivity. Qed.

Example fetch_over_cap :
  @Node.execFileSync (Reference.host 0 "abcdef") "node" []
    {| Node.encoding := "utf-8"; Node.maxBuffer := 5 |}
  = Throw (FetchError BufferExceeded).
Proof. reflexivity. Qed.


Lemma load_fetch_failure_witness :
  (exists why,
      @Yaml.load sample_library (Reference.host 1 "") "manifest.yaml"
      = Throw (FetchError why))
  /\ (forall docs,
        @Yaml.load sample_library (Reference.host 1 "") "manifest.yaml"
        <> Ok docs)
  /\ (forall body,
        @Yaml.loadurl (Reference.host 1 "") "manifest.yaml" <> Ok body).
Proof.
  apply (@load_fetch_failure sample_library (Reference.host 1 "")
           "manifest.yaml" 1%Z "").
  - reflexivity.
  - left. discriminate.
Defined.


Lemma undefined_block_elided_witness :
  @Yaml.load_body sample_library
    (@Yaml.stringify sample_library [VUndefined; VObj [("a", VNum 1)]])
  = Ok [VObj [("a", VNum 1)]].
Proof.
  apply (undefined_block_elided Reference.syntax).
  split; vm_compute; reflexivity.
Defined.

Lemma undefined_property_emitted_witness :
  exists pairs,
    @Yaml.stringify sample_library [VObj sample_props]
    = @render Reference.syntax Yaml.stringify_options (NMap pairs)
    /\ map fst pairs = map fst sample_props
    /\ In ("a", NNull) pairs
    /\ exists props',
         @Yaml.load_body sample_library
           (@Yaml.stringify sample_library [VObj sample_props])
         = Ok [VObj props']
         /\ In ("a", VNull) props'.
Proof.
  apply (undefined_property_emitted Reference.syntax sample_props "a").
  - left. reflexivity.
  - split; vm_compute; reflexivity.
Defined.



(** Such values reach the loop: they are what [toJSON] returns for the
    collections tagged [!!set] and [!!omap]. *)
Example tagged_collections_convert :
  toJSON {| contents := Some (resolve "1.1" (RSet [RPlain "a"]));
            errors := [] |}
  = Ok (VSet [VStr "a"])
  /\ toJSON {| contents :=
                 Some (resolve "1.1" (ROmap [(RPlain "k", RPlain "1")]));
               errors := [] |}
     = Ok (VMap [(VStr "k", VNum 1)]).
Proof. split; reflexivity. Qed.



(** A document that is an alias without an anchor is malformed as well;
    here [load] does fail, in the conversion, and not with a
    [ParseError]. *)
Example unresolved_alias_throws :
  malformed Reference.syntax ("a: 1" ++ nl ++ "---" ++ nl ++ "*x" ++ nl) = true
  /\ @Yaml.load_body sample_library
       ("a: 1" ++ nl ++ "---" ++ nl ++ "*x" ++ nl)
     = Throw (ReferenceError "Unresolved alias: x").
Proof. split; vm_compute; reflexivity. Qed.

Lemma octal_under_schema_1_1_witness :
  @Yaml.load_body sample_library ("0775" ++ nl) = Ok [VNum 509].
Proof.
  apply (octal_under_schema_1_1 Reference.syntax).
  reflexivity.
Defined.

(** ** Further properties of the filter of [load] *)

Section FilterMore.

Context {lib : YAML.Library} {host : Node.Host}.

(** The loop treats the documents one by one: filtering a stream of two
    parts is filtering each part. *)
Theorem load_loop_app (a b : list value) :
  Yaml.load_loop (a ++ b) = (Yaml.load_loop a ++ Yaml.load_loop b)%list.
Proof. rewrite !load_loop_kept. apply filter_app. Qed.

Lemma filter_idem {A : Type} (p : A -> bool) (l : list A) :
  filter p (filter p l) = filter p l.
Proof.
  induction l as [ | a l IH]; simpl; [reflexivity | ].
  destruct (p a) eqn:E; simpl; [rewrite E; now rewrite IH | exact IH].
Qed.

(** Filtering a second time changes nothing. *)
Theorem load_loop_idempotent (raws : list value) :
  Yaml.load_loop (Yaml.load_loop raws) = Yaml.load_loop raws.
Proof. rewrite !load_loop_kept. apply filter_idem. Qed.

Lemma filter_length_le {A : Type} (p : A -> bool) (l : list A) :
  List.length (filter p l) <= List.length l.
Proof.
  induction l as [ | a l IH]; simpl; [lia | ].
  destruct (p a); simpl; lia.
Qed.

Lemma filter_nil_iff {A : Type} (p : A -> bool) (l : list A) :
  filter p l = [] <-> Forall (fun a => p a = false) l.
Proof.
  induction l as [ | a l IH]; simpl.
  - split; [constructor | reflexivity].
  - destruct (p a) eqn:E.
    + split; [discriminate | ].
      intros H. inversion H. congruence.
    + rewrite IH. split.
      * intros H. now constructor.
      * intros H. now inversion H.
Qed.

Lemma filter_id_iff {A : Type} (p : A -> bool) (l : list A) :
  filter p l = l <-> Forall (fun a => p a = true) l.
Proof.
  split; [ | apply filter_all].
  induction l as [ | a l IH]; simpl; [constructor | ].
  destruct (p a) eqn:E.
  - intros H. inversion H as [H']. rewrite H'.
    constructor; [exact E | now apply IH].
  - intros H. pose proof (filter_length_le p l) as Hlen.
    rewrite H in Hlen. simpl in Hlen. lia.
Qed.

(** The result is empty exactly when every document takes one of the
    four guards, and is the input itself exactly when none does. *)
Theorem load_loop_all_or_none (raws : list value) :
  (Yaml.load_loop raws = [] <-> Forall (fun v => skips v = true) raws)
  /\ (Yaml.load_loop raws = raws <-> Forall (fun v => skips v = false) raws).
Proof.
  rewrite !load_loop_kept. split.
  - rewrite filter_nil_iff. unfold kept. split; intros H;
      (eapply Forall_impl; [ | exact H]); intros v Hv.
    + now apply negb_false_iff.
    + now apply negb_false_iff.
  - rewrite filter_id_iff. unfold kept. split; intros H;
      (eapply Forall_impl; [ | exact H]); intros v Hv.
    + now apply negb_true_iff.
    + now apply negb_true_iff.
Qed.

Lemma load_loop_In (raws : list value) (v : value) :
  In v (Yaml.load_loop raws) <-> In v raws /\ skips v = false.
Proof.
  rewrite load_loop_kept, filter_In. unfold kept.
  now rewrite negb_true_iff.
Qed.

(** The result holds exactly the parsed values that take none of the
    guards, and never more values than were parsed. *)
Theorem load_loop_members (raws : list value) :
  (forall v, In v (Yaml.load_loop raws) <-> In v raws /\ skips v = false)
  /\ List.length (Yaml.load_loop raws) <= List.length raws.
Proof.
  split.
  - intros v. apply load_loop_In.
  - rewrite load_loop_kept. apply filter_length_le.
Qed.

(** A boolean, a number or a string is kept whatever its value: the
    guards only ever take undefined, null, arrays and objects. *)
Theorem load_loop_keeps_scalars (raws : list value) (v : value) :
  In v raws ->
  typeof v = TBoolean \/ typeof v = TNumber \/ typeof v = TString ->
  In v (Yaml.load_loop raws).
Proof.
  intros Hin Hty.
  apply load_loop_In. split; [exact Hin | ].
  destruct v; simpl in Hty; try reflexivity;
    destruct Hty as [H | [H | H]]; discriminate H.
Qed.

End FilterMore.

(** ** Further properties of [stringify] *)

Section StringifyMore.

Context {lib : YAML.Library}.

Lemma concat_app (sep : string) (xs ys : list string) :
  xs <> [] -> ys <> [] ->
  String.concat sep (xs ++ ys)
  = String.concat sep xs ++ sep ++ String.concat sep ys.
Proof.
  intros Hx Hy. induction xs as [ | x xs IH]; [contradiction | ].
  destruct xs as [ | x' xs].
  - destruct ys as [ | y ys]; [contradiction | reflexivity].
  - change (String.concat sep ((x :: x' :: xs) ++ ys))
      with (x ++ sep ++ String.concat sep ((x' :: xs) ++ ys)).
    rewrite IH by discriminate.
    change (String.concat sep (x :: x' :: xs))
      with (x ++ sep ++ String.concat sep (x' :: xs)).
    now rewrite !append_assoc.
Qed.

(** Serializing two non-empty document lists one after the other and
    putting one separator between the texts is serializing their
    concatenation. *)
Theorem stringify_app (a b : list value) :
  a <> [] -> b <> [] ->
  Yaml.stringify (a ++ b)
  = Yaml.stringify a ++ ("---" ++ nl) ++ Yaml.stringify b.
Proof.
  intros Ha Hb. rewrite !stringify_concat, map_app.
  apply concat_app.
  - destruct a; [contradiction | discriminate].
  - destruct b; [contradiction | discriminate].
Qed.

Lemma concat_length (sep x : string) (xs : list string) :
  String.length (String.concat sep (x :: xs))
  = list_sum (map String.length (x :: xs))
    + String.length sep * List.length xs.
Proof.
  revert x. induction xs as [ | y ys IH]; intros x.
  - unfold list_sum. simpl. lia.
  - change (String.concat sep (x :: y :: ys))
      with (x ++ sep ++ String.concat sep (y :: ys)).
    rewrite !ReferenceFacts.length_append, IH.
    cbn [map List.length]. rewrite Nat.mul_succ_r.
    unfold list_sum. cbn [fold_right]. lia.
Qed.

(** The text holds the documents' own texts and four characters of
    separator between each two of them, and nothing else. *)
Theorem stringify_length (d : value) (docs : list value) :
  String.length (Yaml.stringify (d :: docs))
  = list_sum (map (fun r => String.length (Yaml.document_text r)) (d :: docs))
    + 4 * List.length docs.
Proof.
  rewrite stringify_concat.
  change (map Yaml.document_text (d :: docs))
    with (Yaml.document_text d :: map Yaml.document_text docs).
  rewrite concat_length, length_map.
  change (String.length ("---" ++ nl)) with 4.
  change (Yaml.document_text d :: map Yaml.document_text docs)
    with (map Yaml.document_text (d :: docs)).
  now rewrite map_map.
Qed.

(** Documents that are all undefined are written without the package:
    one blank line each, with the separators between them. *)
Theorem stringify_undefined_only (docs : list value) :
  Forall (fun d => d = VUndefined) docs ->
  Yaml.stringify docs
  = String.concat ("---" ++ nl) (repeat nl (List.length docs)).
Proof.
  intros H. rewrite stringify_concat. f_equal.
  induction H as [ | d docs -> _ IH]; [reflexivity | ].
  simpl. now rewrite IH.
Qed.

End StringifyMore.

(** ** [loadurl] and [load] in full *)

Section LoadMore.

Context {lib : YAML.Library} {host : Node.Host}.

Lemma loadurl_fetched (url body : string) :
  Node.run Node.execPath (fetch_command url) = Node.Exited 0 body ->
  (Z.of_nat (String.length body) <= 10485760)%Z ->
  Yaml.loadurl url = Ok body.
Proof.
  intros Hrun Hlen.
  unfold Yaml.loadurl, Node.execFileSync. fold (fetch_command url).
  rewrite Hrun. simpl Node.maxBuffer.
  change Yaml.MAX_DOWNLOAD_BUFFER with 10485760%Z.
  destruct (Z.ltb_spec 10485760 (Z.of_nat (String.length body)));
    [lia | reflexivity].
Qed.

(** [loadurl] succeeds exactly when the helper exits with status 0 after
    writing at most 10485760 bytes, and then returns all of them. *)
Theorem loadurl_ok_iff (url body : string) :
  Yaml.loadurl url = Ok body
  <-> Node.run Node.execPath (fetch_command url) = Node.Exited 0 body
      /\ (Z.of_nat (String.length body) <= 10485760)%Z.
Proof.
  split.
  - apply loadurl_ok.
  - intros [Hrun Hlen]. now apply loadurl_fetched.
Qed.

(** [load] succeeds exactly when the fetch succeeds, the package parses
    the fetched text and the conversion of every parsed document
    returns; its result is then the filtered list of all converted
    documents. *)
Theorem load_ok_iff (url : string) (l : list value) :
  Yaml.load url = Ok l
  <-> exists body objects raws,
        Yaml.loadurl url = Ok body
        /\ YAML.parseAllDocuments body Yaml.load_options = Ok objects
        /\ mapM YAML.toJSON objects = Ok raws
        /\ l = Yaml.load_loop raws.
Proof.
  unfold Yaml.load, Yaml.load_body. split.
  - destruct (Yaml.loadurl url) as [body | e]; simpl; [ | discriminate].
    destruct (YAML.parseAllDocuments body Yaml.load_options)
      as [objects | e] eqn:E; simpl; [ | discriminate].
    destruct (mapM YAML.toJSON objects) as [raws | e] eqn:Er; simpl;
      [ | discriminate].
    intros H. inversion H. exists body, objects, raws.
    now rewrite E, Er.
  - intros [body [objects [raws [-> [Hp [Hr ->]]]]]]. simpl.
    rewrite Hp. simpl. now rewrite Hr.
Qed.

(** [load] fails only with the failure of the fetch, with the failure
    the package raised on the fetched text, or with the failure of the
    first document whose conversion throws, and passes each of them on
    unchanged. *)
Theorem load_throw_iff (url : string) (e : error) :
  Yaml.load url = Throw e
  <-> Yaml.loadurl url = Throw e
      \/ exists body,
           Yaml.loadurl url = Ok body
           /\ (YAML.parseAllDocuments body Yaml.load_options = Throw e
               \/ exists before d after raws,
                    YAML.parseAllDocuments body Yaml.load_options
                    = Ok (before ++ d :: after)%list
                    /\ mapM YAML.toJSON before = Ok raws
                    /\ YAML.toJSON d = Throw e).
Proof.
  unfold Yaml.load, Yaml.load_body. split.
  - destruct (Yaml.loadurl url) as [body | e']; simpl.
    + destruct (YAML.parseAllDocuments body Yaml.load_options)
        as [objects | e'] eqn:E; simpl.
      * destruct (mapM YAML.toJSON objects) as [raws | e'] eqn:Er; simpl;
          [discriminate | ].
        intros H. inversion H. subst e'.
        apply mapM_throw_iff in Er.
        destruct Er as [before [d [after [raws [-> [Hb Hd]]]]]].
        right. exists body. split; [reflexivity | ]. right.
        now exists before, d, after, raws.
      * intros H. inversion H. subst. right. exists body.
        split; [reflexivity | now left].
    + intros H. inversion H. now left.
  - intros [-> | [body [-> [Hp | Hd]]]]; simpl; [reflexivity | | ].
    + now rewrite Hp.
    + destruct Hd as [before [d [after [raws [Hp [Hb Hd]]]]]].
      rewrite Hp. simpl.
      assert (Hthrow : mapM YAML.toJSON (before ++ d :: after) = Throw e).
      { apply mapM_throw_iff. now exists before, d, after, raws. }
      now rewrite Hthrow.
Qed.

(** A helper that cannot be started fails the call before anything is
    parsed. *)
Theorem load_cannot_spawn (url : string) :
  Node.run Node.execPath (fetch_command url) = Node.CannotSpawn ->
  Yaml.load url = Throw (FetchError SpawnFailed).
Proof.
  intros H. unfold Yaml.load, Yaml.loadurl, Node.execFileSync.
  fold (fetch_command url). now rewrite H.
Qed.

End LoadMore.

(** ** [save] and [load] *)

Section LoadSaved.

Context {lib : YAML.Library} {host : Node.Host} {disk : Node.Disk}.

(** What is read through the path after a [save] that returned is the
    text of [stringify]. *)
Lemma save_writes_stringify (fs fs' : Node.filesystem) (filePath : string)
    (docs : list value) :
  Yaml.save fs filePath docs = Ok fs' ->
  Node.file_at fs' filePath = Some (Yaml.stringify docs).
Proof.
  unfold Yaml.save, Node.writeFileSync, Node.file_at.
  destruct (Node.write_error fs filePath); [discriminate | ].
  intros H. inversion H. now rewrite String.eqb_refl.
Qed.

(** After a [save] that returned, loading a path on which the helper
    prints what is read through the saved path gives the filtered parse
    of the serialized documents. *)
Theorem load_saved (fs fs' : Node.filesystem) (filePath : string)
    (docs : list value) :
  Yaml.save fs filePath docs = Ok fs' ->
  (forall text,
     Node.file_at fs' filePath = Some text ->
     Node.run Node.execPath (fetch_command filePath) = Node.Exited 0 text) ->
  (Z.of_nat (String.length (Yaml.stringify docs)) <= 10485760)%Z ->
  Yaml.load filePath = Yaml.load_body (Yaml.stringify docs).
Proof.
  intros Hsave Hhelper Hlen.
  assert (Hsaved : Node.file_at fs' filePath = Some (Yaml.stringify docs))
    by (now apply (save_writes_stringify fs)).
  assert (Hfetch : Yaml.loadurl filePath = Ok (Yaml.stringify docs)).
  { apply loadurl_fetched; [now apply Hhelper | exact Hlen]. }
  unfold Yaml.load. now rewrite Hfetch.
Qed.

End LoadSaved.

(** ** The further properties at concrete inputs *)

Lemma load_loop_keeps_scalars_witness :
  In (VNum 0) (Yaml.load_loop [VNull; VNum 0; VArr []]).
Proof.
  apply (load_loop_keeps_scalars [VNull; VNum 0; VArr []] (VNum 0)).
  - right. left. reflexivity.
  - right. left. reflexivity.
Defined.

Lemma stringify_app_witness :
  @Yaml.stringify sample_library ([VUndefined] ++ [VObj [("a", VNum 1)]])
  = @Yaml.stringify sample_library [VUndefined] ++ ("---" ++ nl)
    ++ @Yaml.stringify sample_library [VObj [("a", VNum 1)]].
Proof.
  apply (@stringify_app sample_library [VUndefined] [VObj [("a", VNum 1)]]).
  - discriminate.
  - discriminate.
Defined.

Lemma stringify_undefined_only_witness :
  @Yaml.stringify sample_library [VUndefined; VUndefined]
  = String.concat ("---" ++ nl) (repeat nl 2).
Proof.
  apply (@stringify_undefined_only sample_library [VUndefined; VUndefined]).
  constructor; [reflexivity | ]. constructor; [reflexivity | constructor].
Defined.

Lemma load_cannot_spawn_witness :
  @Yaml.load sample_library dead_host "manifest.yaml"
  = Throw (FetchError SpawnFailed).
Proof.
  apply (@load_cannot_spawn sample_library dead_host "manifest.yaml").
  reflexivity.
Defined.

Lemma load_saved_witness :
  @Yaml.save sample_library open_disk empty_fs "out.yaml" sample_documents
  = Ok (fun p => if String.eqb p "out.yaml"
                 then Some (@Yaml.stringify sample_library sample_documents)
                 else empty_fs p)
  /\ @Yaml.load sample_library
       (Reference.host 0 (@Yaml.stringify sample_library sample_documents))
       "out.yaml"
     = @Yaml.load_body sample_library
         (@Yaml.stringify sample_library sample_documents).
Proof.
  split; [reflexivity | ].
  apply (@load_saved sample_library
           (Reference.host 0 (@Yaml.stringify sample_library sample_documents))
           open_disk empty_fs _ "out.yaml" sample_documents eq_refl).
  - intros text H. unfold Node.file_at in H. simpl Node.file_of in H.
    rewrite String.eqb_refl in H. inversion H. reflexivity.
  - apply Z.leb_le. vm_compute. reflexivity.
Defined.

(** On a disk that takes no write [save] throws the system error and
    there is no new state. *)
Example save_refused :
  @Yaml.save sample_library closed_disk empty_fs "out.yaml" sample_documents
  = Throw (SystemError "EACCES").
Proof. reflexivity. Qed.

(** [path.join] normalizes what it puts together. *)
Example path_join_normalizes :
  Node.path_join "/lib" "_loadurl.mjs" = "/lib/_loadurl.mjs"
  /\ Node.path_join "/lib/" "./_loadurl.mjs" = "/lib/_loadurl.mjs"
  /\ Node.path_join "/a/b" "../c/" = "/a/c/"
  /\ Node.path_join "" "" = "."
  /\ Node.path_join "a" "../.." = "..".
Proof. repeat split. Qed.
